(** * Investigation-board graph server: template driver and TypeDB client

    A shallow embedding of [src/typeql_template_driver.py] and
    [src/typedb_client.py], and the properties of the query renderer, of the
    transactional client and of the graph diff synchroniser
    ([TypeDBClient.update_graph]).

    Conventions of the embedding.
    - Python [str] is [string]: the UTF-8 bytes of the text.  Byte-wise
      lexicographic order on UTF-8 coincides with Python's code-point order,
      so [sorted] on strings is sorting by [String.leb].
    - Python [float] is [spec_float] at binary64 (precision 53, emax 1024);
      [==] on floats is [SFeqb], under which NaN differs from itself.
    - [dict] objects whose iteration order is observable are association
      lists with Python's insertion discipline ([dict_set]); dictionaries that
      are only looked up and compared as key sets are [gmap]/[gset].
    - The engine (the TypeDB driver) and the file system are an oracle that
      answers each call from the history of calls so far. *)

From Stdlib Require Import ZArith Ascii SpecFloat.
From stdpp Require Import gmap strings list sorting pretty.

Local Open Scope Z_scope.

(** ** Python values *)

(** Scalar values: what a JSON document attribute, a DTO field or a template
    parameter holds. *)
Inductive pyval :=
| VNone
| VBool (b : bool)
| VInt (z : Z)
| VFloat (f : spec_float)
| VStr (s : string).

(** A string-keyed [dict] in insertion order (a JSON object, a DTO's
    attribute table). *)
Definition pydict := list (string * pyval).

(** The double quote character, for messages that quote a name. *)
Definition dq : string := String "034"%char EmptyString.

Section Dict.
Context {V : Type}.

(** [d.get(k)] as an option; [k in d]; [d[k] = v]. *)
Fixpoint dict_lookup (d : list (string * V)) (k : string) : option V :=
  match d with
  | [] => None
  | (k', v) :: d' => if String.eqb k' k then Some v else dict_lookup d' k
  end.

Definition dict_mem (d : list (string * V)) (k : string) : bool :=
  match dict_lookup d k with Some _ => true | None => false end.

(** Assignment keeps the position of a key that is already present and
    appends a new key at the end. *)
Fixpoint dict_set (d : list (string * V)) (k : string) (v : V)
  : list (string * V) :=
  match d with
  | [] => [(k, v)]
  | (k', v') :: d' =>
      if String.eqb k' k then (k', v) :: d' else (k', v') :: dict_set d' k v
  end.
End Dict.

(** [d.get(field)]: [None] for a missing key. *)
Definition dict_get (d : pydict) (field : string) : pyval :=
  match dict_lookup d field with Some v => v | None => VNone end.

(** ** Numbers *)

Definition float_zero : spec_float := S754_zero false.
Definition float_one : spec_float := S754_finite false 4503599627370496 (-52).

(** The integer [z] and the float [f] denote the same number (Python
    compares an [int] with a [float] exactly). *)
Definition int_eq_float (z : Z) (f : spec_float) : bool :=
  match f with
  | S754_zero _ => z =? 0
  | S754_finite s m e =>
      let v := if s then Zneg m else Zpos m in
      if 0 <=? e then z =? v * 2 ^ e else z * 2 ^ (- e) =? v
  | _ => false
  end.

Definition int_of_bool (b : bool) : Z := if b then 1 else 0.

(** [a == b] on scalars.  [bool] is a subclass of [int]; numbers compare by
    value across [int] and [float]; a string equals only a string and
    [None] only [None]. *)
Definition py_eq (a b : pyval) : bool :=
  match a, b with
  | VNone, VNone => true
  | VStr s, VStr t => String.eqb s t
  | VBool x, VBool y => int_of_bool x =? int_of_bool y
  | VBool x, VInt z | VInt z, VBool x => int_of_bool x =? z
  | VInt x, VInt y => x =? y
  | VBool x, VFloat f | VFloat f, VBool x => int_eq_float (int_of_bool x) f
  | VInt z, VFloat f | VFloat f, VInt z => int_eq_float z f
  | VFloat f, VFloat g => SFeqb f g
  | _, _ => false
  end.

(** [a != b]. *)
Definition py_ne (a b : pyval) : bool := negb (py_eq a b).

(** ** Exceptions and results *)

Inductive exn :=
(* typeql_template_driver *)
| SpecificationError (msg : string)
| OperationError (msg : string)
| TemplateFileError (msg : string)
(* typedb_client *)
| TypeDBClientError
| TemplateProcessingError
| QueryExecutionError
| ActiveVersionError
| OperationIsNotAllowed
(* builtins and the driver's own exception *)
| KeyError (key : string)
| AttributeError (name : string)
| NameError (name : string)
| TypeError
| ValueError
| OverflowError
| DriverException.

(** [except TemplateDriverError]. *)
Definition is_TemplateDriverError (e : exn) : bool :=
  match e with
  | SpecificationError _ | OperationError _ | TemplateFileError _ => true
  | _ => false
  end.

Inductive result (A : Type) :=
| Ok (a : A)
| Raise (e : exn).
Arguments Ok {A} a.
Arguments Raise {A} e.

Definition rbind {A B} (r : result A) (k : A -> result B) : result B :=
  match r with
  | Ok a => k a
  | Raise e => Raise e
  end.

(** ** typeql_template_driver.py *)

Module TypeQLTemplateDriver.

(** A value as [json.load] returns it; an object is a [dict] in the order
    of the file. *)
#[warnings="-register-all"]
Inductive json :=
| JNull
| JBool (b : bool)
| JInt (z : Z)
| JFloat (f : spec_float)
| JStr (s : string)
| JList (items : list json)
| JObject (fields : list (string * json)).

(** One entry of [self._operations]; [description] and [output] are kept
    as the specification file gives them. *)
Record op_spec := {
  op_file : string;
  op_params : gset string;          (* set(params) *)
  op_description : json;           (* entry.get("description") *)
  op_output : json;                (* entry.get("output") *)
  op_template : string
}.

(** What [template.format] applied to the merged parameters can do: return the text, raise
    [KeyError] for a field name, or raise something else (text of the
    exception kept for the message). *)
Inductive format_outcome :=
| Formatted (query : string)
| FormatKeyError (key : string)
| FormatFailure (text : string).

(** The [params] argument of [get_operation] after Python has bound the
    call: a [dict] with string keys (the annotated type), or any other
    object, of which the method observes the truth value and
    [type(params).__name__] only.  [None], the default, is
    [ParamsOther false "NoneType"]. *)
Inductive params_arg :=
| ParamsDict (d : gmap string pyval)
| ParamsOther (truthy : bool) (type_name : string).

Definition params_none : params_arg := ParamsOther false "NoneType".

(** [bool(params)]: a dict is true when it is not empty. *)
Definition params_truthy (p : params_arg) : bool :=
  match p with
  | ParamsDict d => bool_decide (d ≠ ∅)
  | ParamsOther t _ => t
  end.

Definition str_le (s t : string) : Prop := String.leb s t = true.

#[global] Instance str_le_dec : RelDecision str_le.
Proof. intros s t. unfold str_le. apply _. Defined.

#[global] Instance str_le_total : Total str_le.
Proof. intros s t. apply String.leb_total. Qed.

(** [", ".join(sorted(names))]. *)
Definition sorted_names (names : gset string) : list string :=
  merge_sort str_le (elements names).

Definition join_sorted (names : gset string) : string :=
  String.concat ", " (sorted_names names).

(** [names] lists the set [s] in increasing order, each name once. *)
Definition sorted_listing (s : gset string) (names : list string) : Prop :=
  Sorted str_le names ∧ NoDup names ∧ ∀ x, x ∈ names ↔ x ∈ s.

Definition msg_unknown (operation : string) : string :=
  "Unknown operation " +:+ dq +:+ operation +:+ dq +:+ ".".

Definition msg_not_dict (operation type_name : string) : string :=
  "Parameters for operation " +:+ dq +:+ operation +:+ dq
    +:+ " must be a dict, got " +:+ type_name +:+ ".".

Definition msg_missing (operation : string) (missing : gset string) : string :=
  "Operation " +:+ dq +:+ operation +:+ dq
    +:+ " is missing required parameter(s): " +:+ join_sorted missing +:+ ".".

Definition msg_extra (operation : string) (extra : gset string) : string :=
  "Operation " +:+ dq +:+ operation +:+ dq
    +:+ " received unknown parameter(s): " +:+ join_sorted extra +:+ ".".

Definition msg_format_key (operation key : string) : string :=
  "Missing parameter " +:+ dq +:+ key +:+ dq
    +:+ " when formatting template for operation " +:+ dq +:+ operation
    +:+ dq +:+ ".".

Definition msg_format_failure (operation text : string) : string :=
  "Failed to format template for operation " +:+ dq +:+ operation +:+ dq
    +:+ ": " +:+ text.

Section Driver.
(** [str.format] of the Python runtime. *)
Variable py_format : string -> gmap string pyval -> format_outcome.
(** [self._operations]. *)
Variable operations : gmap string op_spec.

Definition has_operation (operation : string) : bool :=
  bool_decide (is_Some (operations !! operation)).

Definition required_params (operation : string) : result (gset string) :=
  match operations !! operation with
  | None => Raise (OperationError (msg_unknown operation))
  | Some op => Ok (op_params op)
  end.

(** The dict built by the two [merged_params.update] calls: [kwargs]
    override the entries of [params]. *)
Definition merge_params (operation : string) (params : params_arg)
    (kwargs : gmap string pyval) : result (gmap string pyval) :=
  rbind
    (if params_truthy params then
       match params with
       | ParamsDict d => Ok (d ∪ (∅ : gmap string pyval))
       | ParamsOther _ type_name =>
           Raise (OperationError (msg_not_dict operation type_name))
       end
     else Ok ∅)
    (fun merged_params =>
       if bool_decide (kwargs ≠ ∅) then Ok (kwargs ∪ merged_params)
       else Ok merged_params).

(** Validation and rendering, once the operation is found and the
    parameters are merged. *)
Definition render (operation : string) (op : op_spec)
    (merged_params : gmap string pyval) : result string :=
  let required := op_params op in
  let provided := dom merged_params in
  let missing := required ∖ provided in
  let extra := provided ∖ required in
  if bool_decide (missing ≠ ∅) then
    Raise (OperationError (msg_missing operation missing))
  else if bool_decide (extra ≠ ∅) then
    Raise (OperationError (msg_extra operation extra))
  else
    match py_format (op_template op) merged_params with
    | Formatted query => Ok query
    | FormatKeyError key =>
        Raise (OperationError (msg_format_key operation key))
    | FormatFailure text =>
        Raise (OperationError (msg_format_failure operation text))
    end.

Definition get_operation (operation : string) (params : params_arg)
    (kwargs : gmap string pyval) : result string :=
  match operations !! operation with
  | None => Raise (OperationError (msg_unknown operation))
  | Some op =>
      rbind (merge_params operation params kwargs) (render operation op)
  end.
End Driver.

(** *** The catalogue's metadata *)

(** What [describe_operation] returns. *)
Record operation_description := {
  d_operation : string;
  d_file : string;
  d_description : json;
  d_params : list string;           (* sorted(list(op["params"])) *)
  d_output : json
}.

Section Describe.
Variable operations : gmap string op_spec.

Definition describe_operation (operation : string)
  : result operation_description :=
  match operations !! operation with
  | None => Raise (OperationError (msg_unknown operation))
  | Some op =>
      Ok {| d_operation := operation;
            d_file := op_file op;
            d_description := op_description op;
            d_params := sorted_names (op_params op);
            d_output := op_output op |}
  end.
End Describe.

(** *** Loading the catalogue *)

(** [type(j).__name__]. *)
Definition json_type_name (j : json) : string :=
  match j with
  | JNull => "NoneType"
  | JBool _ => "bool"
  | JInt _ => "int"
  | JFloat _ => "float"
  | JStr _ => "str"
  | JList _ => "list"
  | JObject _ => "dict"
  end.

(** [bool(j)]. *)
Definition json_truthy (j : json) : bool :=
  match j with
  | JNull => false
  | JBool b => b
  | JInt z => negb (z =? 0)
  | JFloat (S754_zero _) => false
  | JFloat _ => true
  | JStr s => negb (String.eqb s EmptyString)
  | JList items => match items with [] => false | _ => true end
  | JObject fields => match fields with [] => false | _ => true end
  end.

(** [isinstance(j, str)], with the string. *)
Definition json_str (j : json) : option string :=
  match j with JStr s => Some s | _ => None end.

(** [entry.get(key)]. *)
Definition json_get (fields : list (string * json)) (key : string) : json :=
  match dict_lookup fields key with Some j => j | None => JNull end.

(** The members of a list of strings: [None] unless every element is a
    [str]. *)
Fixpoint json_strings (items : list json) : option (list string) :=
  match items with
  | [] => Some []
  | j :: items' =>
      match json_str j, json_strings items' with
      | Some s, Some l => Some (s :: l)
      | _, _ => None
      end
  end.

(** Reading a file: its text, or the text of the exception. *)
Inductive file_read :=
| FileText (text : string)
| FileError (text : string).

(** Parsing the specification file: the value, or the text of the
    exception raised by [open] or [json.load]. *)
Inductive json_read :=
| JsonValue (j : json)
| JsonError (text : string).

(** The file system and the runtime as the loader uses them. *)
Record file_system := {
  path_join : string -> string -> string;     (* os.path.join *)
  isdir : string -> bool;                     (* os.path.isdir *)
  isfile : string -> bool;                    (* os.path.isfile *)
  read_text : string -> file_read;            (* open(path).read() *)
  load_json : string -> json_read;            (* json.load(open(path)) *)
  repr_json : json -> string                  (* str(entry) in a message *)
}.

Definition msg_not_object (entry : json) : string :=
  "Each specification entry must be an object, got: " +:+ json_type_name entry.

Definition msg_bad_operation (fs : file_system) (entry : json) : string :=
  "Specification entry is missing a valid 'operation' field: "
    +:+ repr_json fs entry.

Definition msg_bad_file (operation : string) : string :=
  "Specification entry for '" +:+ operation
    +:+ "' is missing a valid 'file' field.".

Definition msg_bad_params (operation : string) : string :=
  "Specification entry for '" +:+ operation
    +:+ "' has invalid 'params' field; it must be a list of strings.".

Definition msg_duplicate (operation : string) : string :=
  "Duplicate operation name in specification: '" +:+ operation +:+ "'".

Definition msg_template_missing (template_path operation : string) : string :=
  "Template file " +:+ dq +:+ template_path +:+ dq +:+ " for operation "
    +:+ dq +:+ operation +:+ dq +:+ " does not exist.".

Definition msg_template_unreadable (template_path operation text : string)
  : string :=
  "Failed to read template file " +:+ dq +:+ template_path +:+ dq
    +:+ " for operation " +:+ dq +:+ operation +:+ dq +:+ ": " +:+ text.

Definition msg_no_version_dir (base_dir : string) : string :=
  "Version directory " +:+ dq +:+ base_dir +:+ dq
    +:+ " does not exist or is not a directory.".

Definition msg_no_spec_file (spec_path : string) : string :=
  "Specification file " +:+ dq +:+ spec_path +:+ dq
    +:+ " does not exist or is not a file.".

Definition msg_spec_unreadable (spec_path text : string) : string :=
  "Failed to read specification file " +:+ dq +:+ spec_path +:+ dq
    +:+ ": " +:+ text.

Definition msg_spec_not_list (spec_path : string) : string :=
  "Specification file " +:+ dq +:+ spec_path +:+ dq
    +:+ " must contain a JSON array of operations.".

Section Loader.
Variable fs : file_system.
(** [self._base_dir]. *)
Variable base_dir : string.

(** The three field checks of [_process_spec_entry], in the order of the
    source: the operation name, the file name, the list of parameters. *)
Definition entry_fields (entry : json)
  : result (string * string * list string * list (string * json)) :=
  match entry with
  | JObject fields =>
      let operation := json_get fields "operation" in
      let filename := json_get fields "file" in
      let params := json_get fields "params" in
      match json_str operation with
      | Some op_name =>
          if negb (json_truthy operation) then
            Raise (SpecificationError (msg_bad_operation fs entry))
          else
            match json_str filename with
            | Some file =>
                if negb (json_truthy filename) then
                  Raise (SpecificationError (msg_bad_file op_name))
                else
                  match params with
                  | JList items =>
                      match json_strings items with
                      | Some names => Ok (op_name, file, names, fields)
                      | None =>
                          Raise (SpecificationError (msg_bad_params op_name))
                      end
                  | _ => Raise (SpecificationError (msg_bad_params op_name))
                  end
            | None => Raise (SpecificationError (msg_bad_file op_name))
            end
      | None => Raise (SpecificationError (msg_bad_operation fs entry))
      end
  | _ => Raise (SpecificationError (msg_not_object entry))
  end.

Definition _process_spec_entry (operations : gmap string op_spec)
    (entry : json) : result (gmap string op_spec) :=
  rbind (entry_fields entry) (fun '(operation, filename, params, fields) =>
  if bool_decide (is_Some (operations !! operation)) then
    Raise (SpecificationError (msg_duplicate operation))
  else
    let template_path := path_join fs base_dir filename in
    if negb (isfile fs template_path) then
      Raise (TemplateFileError (msg_template_missing template_path operation))
    else
      match read_text fs template_path with
      | FileError text =>
          Raise (TemplateFileError
                   (msg_template_unreadable template_path operation text))
      | FileText template_content =>
          Ok (<[operation :=
                  {| op_file := filename;
                     op_params := list_to_set params;
                     op_description := json_get fields "description";
                     op_output := json_get fields "output";
                     op_template := template_content |}]> operations)
      end).

(** [for entry in spec_data: self._process_spec_entry(entry)]. *)
Fixpoint process_entries (operations : gmap string op_spec)
    (entries : list json) : result (gmap string op_spec) :=
  match entries with
  | [] => Ok operations
  | entry :: entries' =>
      rbind (_process_spec_entry operations entry)
            (fun operations' => process_entries operations' entries')
  end.
End Loader.

(** [TypeQLTemplateDriver.__init__]: the catalogue [self._operations], or
    the exception of the constructor. *)
Definition load (fs : file_system) (db_root version spec_filename : string)
  : result (gmap string op_spec) :=
  let base_dir := path_join fs db_root version in
  if negb (isdir fs base_dir) then
    Raise (SpecificationError (msg_no_version_dir base_dir))
  else
    let spec_path := path_join fs base_dir spec_filename in
    if negb (isfile fs spec_path) then
      Raise (SpecificationError (msg_no_spec_file spec_path))
    else
      match load_json fs spec_path with
      | JsonError text =>
          Raise (SpecificationError (msg_spec_unreadable spec_path text))
      | JsonValue (JList entries) => process_entries fs base_dir ∅ entries
      | JsonValue _ =>
          Raise (SpecificationError (msg_spec_not_list spec_path))
      end.

End TypeQLTemplateDriver.

(** ** typedb_client.py: the engine, the world and the client's monad *)

Module TypeDBClient.
Import TypeQLTemplateDriver.

Inductive TransactionType := READ | WRITE | SCHEMA.

(** A concept document: a mapping whose entries are scalars or lists of
    attribute mappings (the [nodes] and [edges] of a board version). *)
Inductive docval :=
| DVal (v : pyval)
| DRows (rows : list pydict).

Definition document := list (string * docval).

(** Calls that leave the client: the driver's, and the read of the schema
    file.  A transaction is named by the position of its opening call in
    the history. *)
Inductive engine_call :=
| DatabasesContains (name : string)
| DatabasesCreate (name : string)
| DatabasesDelete (name : string)
| TransactionOpen (db : string) (tx_type : TransactionType)
| TxQuery (tx : nat) (query : string)     (* tx.query(query).resolve() *)
| TxDocuments (tx : nat)                  (* list(answer.as_concept_documents()) *)
| TxCommit (tx : nat)
| TxClose (tx : nat)
| ReadSchemaFile.                         (* schema_path.read_text(...) *)

Inductive response :=
| Raised                                  (* the call raised *)
| Done
| Truth (b : bool)
| Documents (docs : list document)
| Text (text : string).

Definition event : Type := engine_call * response.

(** The engine answers a call from the history of calls and answers. *)
Definition engine := list event -> engine_call -> response.

(** The write methods of the client, as [update_graph] invokes them. *)
Inductive client_call :=
| NodeDelete (node_id : pyval) (version : option string)
| NodeCreate (node_id name pos_x pos_y picture_path description : pyval)
    (version : option string)
| NodeUpdate (node_id name pos_x pos_y picture_path description : pyval)
    (version : option string)
| EdgeDelete (edge_id : pyval) (version : option string)
| EdgeCreate (edge_id node1_id node2_id description : pyval)
    (version : option string)
| EdgeUpdate (edge_id description : pyval) (version : option string).

(** What a run can change or read: the cached active version, the
    [DEBUG_DB] environment variable and the history of the engine. *)
Record world := {
  active_version : option string;
  DEBUG_DB : option string;
  trace : list event
}.

Definition set_active (v : option string) (w : world) : world :=
  {| active_version := v; DEBUG_DB := DEBUG_DB w; trace := trace w |}.

Definition record_event (ev : event) (w : world) : world :=
  {| active_version := active_version w; DEBUG_DB := DEBUG_DB w;
     trace := trace w ++ [ev] |}.

(** A run returns or raises, leaves a world, and has invoked a sequence
    of write methods ([log], a ghost record of the calls, oldest first). *)
Record outcome (A : Type) := {
  res : result A;
  final : world;
  log : list client_call
}.
Arguments res {A} o.
Arguments final {A} o.
Arguments log {A} o.
Arguments Build_outcome {A} res final log.

Definition M (A : Type) : Type := world -> outcome A.

Definition ret {A} (a : A) : M A :=
  fun w => {| res := Ok a; final := w; log := [] |}.

Definition raise {A} (e : exn) : M A :=
  fun w => {| res := Raise e; final := w; log := [] |}.

Definition lift {A} (r : result A) : M A :=
  fun w => {| res := r; final := w; log := [] |}.

Definition bind {A B} (m : M A) (k : A -> M B) : M B :=
  fun w =>
    let o := m w in
    match res o with
    | Ok a =>
        let o' := k a (final o) in
        {| res := res o'; final := final o'; log := log o ++ log o' |}
    | Raise e => {| res := Raise e; final := final o; log := log o |}
    end.

(** [try: m  except Exception as e: h e]. *)
Definition try_except {A} (m : M A) (h : exn -> M A) : M A :=
  fun w =>
    let o := m w in
    match res o with
    | Ok _ => o
    | Raise e =>
        let o' := h e (final o) in
        {| res := res o'; final := final o'; log := log o ++ log o' |}
    end.

(** [try: m  finally: c], for a [c] that cannot raise. *)
Definition finally {A} (m : M A) (c : M unit) : M A :=
  fun w =>
    let o := m w in
    let o' := c (final o) in
    {| res := res o; final := final o'; log := log o ++ log o' |}.

#[global] Instance M_ret : MRet M := @ret.
#[global] Instance M_bind : MBind M := fun A B k m => bind m k.
#[global] Instance result_ret : MRet result := @Ok.
#[global] Instance result_bind : MBind result := fun A B k r => rbind r k.
#[global] Instance result_fmap : FMap result :=
  fun A B f r => rbind r (fun a => Ok (f a)).

Fixpoint for_each {A} (l : list A) (body : A -> M unit) : M unit :=
  match l with
  | [] => ret tt
  | x :: l' => body x ;; for_each l' body
  end.

(** The ghost record of a write method being invoked. *)
Definition invoked (c : client_call) : M unit :=
  fun w => {| res := Ok tt; final := w; log := [c] |}.

Definition getenv_DEBUG_DB : M (option string) :=
  fun w => {| res := Ok (DEBUG_DB w); final := w; log := [] |}.

Definition get_active_version : M (option string) :=
  fun w => {| res := Ok (active_version w); final := w; log := [] |}.

Definition store_active_version (v : string) : M unit :=
  fun w => {| res := Ok tt; final := set_active (Some v) w; log := [] |}.

(** The number of calls made so far names the next transaction. *)
Definition next_tx : M nat :=
  fun w => {| res := Ok (length (trace w)); final := w; log := [] |}.

(** What the client expects of an answer; any other answer is the call
    raising. *)
Definition expect_done (r : response) : M unit :=
  match r with Raised => raise DriverException | _ => ret tt end.

Definition expect_truth (r : response) : M bool :=
  match r with Truth b => ret b | _ => raise DriverException end.

Definition expect_documents (r : response) : M (list document) :=
  match r with Documents docs => ret docs | _ => raise DriverException end.

Definition expect_text (r : response) : M string :=
  match r with Text t => ret t | _ => raise DriverException end.


(** The client object and what it runs on: [self.db_name], [self.driver],
    the catalogue of [self.template_driver], the module constant
    [INVESTIGATION_NAME], and three operations of the Python runtime that
    are not modelled further: [str.format], [repr] of a float and the
    parsing of a float from a string ([None]: [ValueError]). *)
Record client := {
  db_name : string;
  driver : engine;
  template_driver : gmap string op_spec;
  INVESTIGATION_NAME : string;
  py_format : string -> gmap string pyval -> format_outcome;
  repr_float : spec_float -> string;
  float_of_str : string -> option spec_float
}.

(** An input node or edge of [update_graph]: a [dict], or an object with
    attributes (a DTO). *)
Inductive pyobj :=
| ODict (d : pydict)
| OAttrs (attrs : pydict).

(** The local helper [get_field] of [update_graph]. *)
Definition get_field (obj : pyobj) (field : string) : result pyval :=
  match obj with
  | ODict d => Ok (dict_get d field)
  | OAttrs attrs =>
      match dict_lookup attrs field with
      | Some v => Ok v
      | None => Raise (AttributeError field)
      end
  end.

(** [float(z)] for an integer: rounding to nearest even, [OverflowError]
    beyond the range of binary64. *)
Definition float_of_int (z : Z) : result spec_float :=
  match binary_normalize 53 1024 z 0 false with
  | S754_infinity _ => Raise OverflowError
  | f => Ok f
  end.

Section Client.
Variable self : client.

(** [str(v)]. *)
Definition py_str (v : pyval) : string :=
  match v with
  | VNone => "None"
  | VBool true => "True"
  | VBool false => "False"
  | VInt z => pretty z
  | VFloat f => repr_float self f
  | VStr s => s
  end.

(** [float(v)]. *)
Definition py_float (v : pyval) : result spec_float :=
  match v with
  | VNone => Raise TypeError
  | VBool b => Ok (if b then float_one else float_zero)
  | VInt z => float_of_int z
  | VFloat f => Ok f
  | VStr s =>
      match float_of_str self s with
      | Some f => Ok f
      | None => Raise ValueError
      end
  end.

(** One call of the driver or of the file system: the engine answers
    from the history, and the call and its answer join the history. *)
Definition perform (c : engine_call) : M response :=
  fun w =>
    let r := driver self (trace w) c in
    {| res := Ok r; final := record_event (c, r) w; log := [] |}.

Definition _ensure_debug_allowed : M unit :=
  v ← getenv_DEBUG_DB;
  match v with
  | None => raise OperationIsNotAllowed
  | Some _ => ret tt
  end.

(** [db_name or self.db_name]. *)
Definition name_or_default (name : option string) : string :=
  match name with
  | None | Some EmptyString => db_name self
  | Some n => n
  end.

Definition create_database (name : option string) : M unit :=
  _ensure_debug_allowed;;
  let name := name_or_default name in
  try_except
    (present ← perform (DatabasesContains name) ≫= expect_truth;
     if negb present
     then perform (DatabasesCreate name) ≫= expect_done
     else ret tt)
    (fun _ => raise TypeDBClientError).

Definition drop_database (name : option string) : M unit :=
  _ensure_debug_allowed;;
  let name := name_or_default name in
  try_except
    (present ← perform (DatabasesContains name) ≫= expect_truth;
     if (present : bool)
     then perform (DatabasesDelete name) ≫= expect_done
     else ret tt)
    (fun _ => raise TypeDBClientError).

(** The context manager [transaction]: [with self.transaction(tx_type)
    as tx: body tx].  A failure to open is a [QueryExecutionError]; once
    open, the transaction is closed when the body is left, however it
    is left, and what the close raises is dropped. *)
Definition transaction {A} (tx_type : TransactionType) (body : nat -> M A)
  : M A :=
  tx ← next_tx;
  opened ← perform (TransactionOpen (db_name self) tx_type);
  match opened with
  | Raised => raise QueryExecutionError
  | _ =>
      finally (body tx)
              (try_except (perform (TxClose tx) ≫= expect_done)
                          (fun _ => ret tt))
  end.

Definition _resolve_version (version : option string) : M string :=
  match version with
  | Some v => ret v
  | None =>
      cached ← get_active_version;
      match cached with
      | None => raise ActiveVersionError
      | Some v => ret v
      end
  end.

Definition _build_query (op_name : string) (params : gmap string pyval)
  : M string :=
  match get_operation (py_format self) (template_driver self)
          op_name params_none params with
  | Ok query => ret query
  | Raise e =>
      if is_TemplateDriverError e then raise TemplateProcessingError
      else raise e
  end.

Definition _execute_write (op_name query : string) : M unit :=
  try_except
    (transaction WRITE (fun tx =>
       perform (TxQuery tx query) ≫= expect_done;;
       perform (TxCommit tx) ≫= expect_done))
    (fun _ => raise QueryExecutionError).

Definition _execute_read (op_name query : string) : M (list document) :=
  try_except
    (transaction READ (fun tx =>
       perform (TxQuery tx query) ≫= expect_done;;
       perform (TxDocuments tx) ≫= expect_documents))
    (fun _ => raise QueryExecutionError).

(** *** Operations of the catalogue *)

Definition node_create (node_id name pos_x pos_y picture_path description : pyval)
    (version : option string) : M unit :=
  invoked (NodeCreate node_id name pos_x pos_y picture_path description version);;
  let op_name := "node-create" in
  resolved_version ← _resolve_version version;
  query ← _build_query op_name (list_to_map [
    ("investigation_name", VStr (INVESTIGATION_NAME self));
    ("version", VStr resolved_version);
    ("node_id", node_id);
    ("name", name);
    ("pos_x", pos_x);
    ("pos_y", pos_y);
    ("picture_path", picture_path);
    ("description", description)]);
  _execute_write op_name query.

Definition node_update (node_id name pos_x pos_y picture_path description : pyval)
    (version : option string) : M unit :=
  invoked (NodeUpdate node_id name pos_x pos_y picture_path description version);;
  let op_name := "node-update" in
  resolved_version ← _resolve_version version;
  query ← _build_query op_name (list_to_map [
    ("investigation_name", VStr (INVESTIGATION_NAME self));
    ("version", VStr resolved_version);
    ("node_id", node_id);
    ("name", name);
    ("pos_x", pos_x);
    ("pos_y", pos_y);
    ("picture_path", picture_path);
    ("description", description)]);
  _execute_write op_name query.

Definition node_delete (node_id : pyval) (version : option string) : M unit :=
  invoked (NodeDelete node_id version);;
  let op_name := "node-delete" in
  resolved_version ← _resolve_version version;
  query ← _build_query op_name (list_to_map [
    ("investigation_name", VStr (INVESTIGATION_NAME self));
    ("version", VStr resolved_version);
    ("node_id", node_id)]);
  _execute_write op_name query.

Definition edge_create (edge_id node1_id node2_id description : pyval)
    (version : option string) : M unit :=
  invoked (EdgeCreate edge_id node1_id node2_id description version);;
  let op_name := "edge-create" in
  resolved_version ← _resolve_version version;
  query ← _build_query op_name (list_to_map [
    ("investigation_name", VStr (INVESTIGATION_NAME self));
    ("version", VStr resolved_version);
    ("edge_id", edge_id);
    ("node1_id", node1_id);
    ("node2_id", node2_id);
    ("description", description)]);
  _execute_write op_name query.

Definition edge_update (edge_id description : pyval)
    (version : option string) : M unit :=
  invoked (EdgeUpdate edge_id description version);;
  let op_name := "edge-update" in
  resolved_version ← _resolve_version version;
  query ← _build_query op_name (list_to_map [
    ("investigation_name", VStr (INVESTIGATION_NAME self));
    ("version", VStr resolved_version);
    ("edge_id", edge_id);
    ("description", description)]);
  _execute_write op_name query.

Definition edge_delete (edge_id : pyval) (version : option string) : M unit :=
  invoked (EdgeDelete edge_id version);;
  let op_name := "edge-delete" in
  resolved_version ← _resolve_version version;
  query ← _build_query op_name (list_to_map [
    ("investigation_name", VStr (INVESTIGATION_NAME self));
    ("version", VStr resolved_version);
    ("edge_id", edge_id)]);
  _execute_write op_name query.

Definition graph_by_version_get (version : option string) : M document :=
  let op_name := "graph-by-version-get" in
  resolved_version ← _resolve_version version;
  query ← _build_query op_name (list_to_map [
    ("investigation_name", VStr (INVESTIGATION_NAME self));
    ("version", VStr resolved_version)]);
  docs ← _execute_read op_name query;
  match docs with
  | [] => raise QueryExecutionError                  (* not docs *)
  | doc :: _ =>
      if (1 <? length docs)%nat then raise QueryExecutionError
      else ret doc                                   (* docs[0] *)
  end.

Definition set_active_version (version : string) : M unit :=
  let op_name := "set-active-version" in
  query ← _build_query op_name (list_to_map [
    ("investigation_name", VStr (INVESTIGATION_NAME self));
    ("version", VStr version)]);
  _execute_write op_name query;;
  store_active_version version.

(** The message of the first [raise] reads the name [resolved_version],
    which this method (and the module) never binds: evaluating the
    message raises [NameError]. *)
Definition get_versions : M document :=
  let op_name := "get-versions" in
  query ← _build_query op_name (list_to_map [
    ("investigation_name", VStr (INVESTIGATION_NAME self))]);
  docs ← _execute_read op_name query;
  match docs with
  | [] => raise (NameError "resolved_version")       (* not docs *)
  | doc :: _ =>
      if (1 <? length docs)%nat then raise QueryExecutionError
      else ret doc
  end.

(** Step 2 of [investigation_create]: the schema applied in a
    transaction of kind SCHEMA. *)
Definition apply_schema (schema_text : string) : M unit :=
  try_except
    (transaction SCHEMA (fun tx =>
       perform (TxQuery tx schema_text) ≫= expect_done;;
       perform (TxCommit tx) ≫= expect_done))
    (fun _ => raise QueryExecutionError).

Definition investigation_create : M unit :=
  _ensure_debug_allowed;;
  schema_text ←
    try_except (perform ReadSchemaFile ≫= expect_text)
               (fun _ => raise TypeDBClientError);
  apply_schema schema_text;;
  let op_name := "investigation-create" in
  query ← _build_query op_name (list_to_map [
    ("investigation_name", VStr (INVESTIGATION_NAME self))]);
  _execute_write op_name query.

Definition investigation_delete : M unit :=
  _ensure_debug_allowed;;
  let op_name := "investigation-delete" in
  query ← _build_query op_name (list_to_map [
    ("investigation_name", VStr (INVESTIGATION_NAME self))]);
  _execute_write op_name query.

(** *** update_graph *)

(** [db_graph[key]]. *)
Definition doc_getitem (doc : document) (key : string) : result docval :=
  match dict_lookup doc key with
  | Some v => Ok v
  | None => Raise (KeyError key)
  end.

(** The elements a [for] loop draws from the value, each then indexed
    by a field name: a list of mappings gives its elements; the empty
    string gives none; any other scalar is not iterable, or yields
    characters that cannot be indexed by a name. *)
Definition rows_of (v : docval) : result (list pydict) :=
  match v with
  | DRows rows => Ok rows
  | DVal (VStr EmptyString) => Ok []
  | DVal _ => Raise TypeError
  end.

(** [{str(n[key]): n for n in rows}], continued from [acc]. *)
Fixpoint index_rows (key : string) (rows : list pydict)
    (acc : list (string * pydict)) : result (list (string * pydict)) :=
  match rows with
  | [] => Ok acc
  | n :: rows' =>
      match dict_lookup n key with
      | None => Raise (KeyError key)
      | Some v => index_rows key rows' (dict_set acc (py_str v) n)
      end
  end.

(** [for n in objs: by_id[str(get_field(n, key))] = n], continued from
    [acc]. *)
Fixpoint index_objs (key : string) (objs : list pyobj)
    (acc : list (string * pyobj)) : result (list (string * pyobj)) :=
  match objs with
  | [] => Ok acc
  | n :: objs' =>
      v ← get_field n key;
      index_objs key objs' (dict_set acc (py_str v) n)
  end.

(** The disjunction [need_update], evaluated left to right and stopping
    at the first operand that holds. *)
Definition need_update (db_node : pydict)
    (new_name : pyval) (new_pos_x new_pos_y : spec_float)
    (new_picture new_desc : pyval) : result bool :=
  if py_ne (dict_get db_node "name") new_name then Ok true else
  db_pos_x ← py_float (dict_get db_node "pos_x");
  if negb (SFeqb db_pos_x new_pos_x) then Ok true else
  db_pos_y ← py_float (dict_get db_node "pos_y");
  if negb (SFeqb db_pos_y new_pos_y) then Ok true else
  if py_ne (dict_get db_node "picture_path") new_picture then Ok true else
  Ok (py_ne (dict_get db_node "description") new_desc).

Section Loops.
Variables (db_nodes_by_id : list (string * pydict))
          (new_nodes_by_id : list (string * pyobj))
          (db_edges_by_id : list (string * pydict))
          (new_edges_by_id : list (string * pyobj))
          (resolved_version : string).

(** Nodes, loop 1. *)
Definition delete_absent_node (node_id_str : string) : M unit :=
  if negb (dict_mem new_nodes_by_id node_id_str) then
    node_delete (VStr node_id_str) (Some resolved_version)
  else ret tt.

(** Nodes, loop 2. *)
Definition create_new_node (item : string * pyobj) : M unit :=
  let '(node_id_str, node_obj) := item in
  if negb (dict_mem db_nodes_by_id node_id_str) then
    name ← lift (get_field node_obj "name");
    pos_x ← lift (get_field node_obj "pos_x" ≫= py_float);
    pos_y ← lift (get_field node_obj "pos_y" ≫= py_float);
    picture_path ← lift (get_field node_obj "picture_path");
    description ← lift (get_field node_obj "description");
    node_create (VStr node_id_str) name (VFloat pos_x) (VFloat pos_y)
      picture_path description (Some resolved_version)
  else ret tt.

(** Nodes, loop 3. *)
Definition update_changed_node (item : string * pydict) : M unit :=
  let '(node_id_str, db_node) := item in
  match dict_lookup new_nodes_by_id node_id_str with
  | None => ret tt                                  (* continue *)
  | Some node_obj =>
      new_name ← lift (get_field node_obj "name");
      new_pos_x ← lift (get_field node_obj "pos_x" ≫= py_float);
      new_pos_y ← lift (get_field node_obj "pos_y" ≫= py_float);
      new_picture ← lift (get_field node_obj "picture_path");
      new_desc ← lift (get_field node_obj "description");
      changed ← lift (need_update db_node new_name new_pos_x new_pos_y
                        new_picture new_desc);
      if (changed : bool) then
        node_update (VStr node_id_str) new_name (VFloat new_pos_x)
          (VFloat new_pos_y) new_picture new_desc (Some resolved_version)
      else ret tt
  end.

(** Edges, loop 1. *)
Definition delete_absent_edge (edge_id_str : string) : M unit :=
  if negb (dict_mem new_edges_by_id edge_id_str) then
    edge_delete (VStr edge_id_str) (Some resolved_version)
  else ret tt.

(** Edges, loop 2. *)
Definition create_new_edge (item : string * pyobj) : M unit :=
  let '(edge_id_str, edge_obj) := item in
  if negb (dict_mem db_edges_by_id edge_id_str) then
    node1 ← lift (get_field edge_obj "node1");
    node2 ← lift (get_field edge_obj "node2");
    description ← lift (get_field edge_obj "description");
    edge_create (VStr edge_id_str) (VStr (py_str node1))
      (VStr (py_str node2)) description (Some resolved_version)
  else ret tt.

(** Edges, loop 3. *)
Definition update_changed_edge (item : string * pydict) : M unit :=
  let '(edge_id_str, db_edge) := item in
  match dict_lookup new_edges_by_id edge_id_str with
  | None => ret tt                                  (* continue *)
  | Some edge_obj =>
      let db_node1 := py_str (dict_get db_edge "node1") in
      let db_node2 := py_str (dict_get db_edge "node2") in
      let db_desc := dict_get db_edge "description" in
      new_node1 ← lift (py_str <$> get_field edge_obj "node1");
      new_node2 ← lift (py_str <$> get_field edge_obj "node2");
      new_desc ← lift (get_field edge_obj "description");
      let endpoints_changed :=
        negb (String.eqb db_node1 new_node1)
        || negb (String.eqb db_node2 new_node2) in
      let desc_changed := py_ne db_desc new_desc in
      if endpoints_changed then
        edge_delete (VStr edge_id_str) (Some resolved_version);;
        edge_create (VStr edge_id_str) (VStr new_node1) (VStr new_node2)
          new_desc (Some resolved_version)
      else if desc_changed then
        edge_update (VStr edge_id_str) new_desc (Some resolved_version)
      else ret tt
  end.

(** The six loops, in the order of the source. *)
Definition synchronise : M unit :=
  for_each db_nodes_by_id.*1 delete_absent_node;;
  for_each new_nodes_by_id create_new_node;;
  for_each db_nodes_by_id update_changed_node;;
  for_each db_edges_by_id.*1 delete_absent_edge;;
  for_each new_edges_by_id create_new_edge;;
  for_each db_edges_by_id update_changed_edge.
End Loops.

Definition update_graph (version : option string)
    (nodes edges : list pyobj) : M unit :=
  db_graph ← graph_by_version_get version;
  db_nodes ← lift (doc_getitem db_graph "nodes");
  db_edges ← lift (doc_getitem db_graph "edges");
  db_nodes_by_id ← lift (rows_of db_nodes ≫= fun rows => index_rows "node_id" rows []);
  new_nodes_by_id ← lift (index_objs "node_id" nodes []);
  db_edges_by_id ← lift (rows_of db_edges ≫= fun rows => index_rows "edge_id" rows []);
  new_edges_by_id ← lift (index_objs "edge_id" edges []);
  resolved_version ← _resolve_version version;
  synchronise db_nodes_by_id new_nodes_by_id db_edges_by_id new_edges_by_id
    resolved_version.
End Client.

Section Databases.
Variable self : client.

(** Not gated by [DEBUG_DB]. *)
Definition ensure_database_exists : M unit :=
  try_except
    (present ← perform self (DatabasesContains (db_name self)) ≫= expect_truth;
     if negb present
     then perform self (DatabasesCreate (db_name self)) ≫= expect_done
     else ret tt)
    (fun _ => raise TypeDBClientError).

Definition graph_by_version_delete (version : option string) : M unit :=
  let op_name := "graph-by-version-delete" in
  resolved_version ← _resolve_version version;
  query ← _build_query self op_name (list_to_map [
    ("investigation_name", VStr (INVESTIGATION_NAME self));
    ("version", VStr resolved_version)]);
  _execute_write self op_name query.

(** The version is required; the cache is not consulted. *)
Definition graph_by_version_create (version : string) : M unit :=
  let op_name := "graph-by-version-create" in
  query ← _build_query self op_name (list_to_map [
    ("investigation_name", VStr (INVESTIGATION_NAME self));
    ("version", VStr version)]);
  _execute_write self op_name query.
End Databases.

End TypeDBClient.

(** ** graph_service.py *)

Module GraphService.
Import TypeQLTemplateDriver TypeDBClient.

Section Service.
(** [self.client]. *)
Variable client : TypeDBClient.client.

(** The [print] of each reader formats [db_data['version']]; the text
    printed is not kept. *)
Definition print_version (db_data : document) : M unit :=
  _ ← lift (doc_getitem db_data "version"); ret tt.

Definition get_board (version : option string) : M document :=
  db_data ← graph_by_version_get client version;
  print_version db_data;;
  ret db_data.

(** The filters [node_id], [ids], [name] and [has_picture] are accepted and
    not used. *)
Definition get_nodes (version : option string)
    (node_id : pyval) (ids : list pyval) (name has_picture : pyval)
  : M docval :=
  db_data ← graph_by_version_get client version;
  print_version db_data;;
  lift (doc_getitem db_data "nodes").

(** The filters are accepted and not used. *)
Definition get_edges (version : option string)
    (edge_id : pyval) (ids : list pyval) (node_id from_id to_id : pyval)
  : M docval :=
  db_data ← graph_by_version_get client version;
  print_version db_data;;
  lift (doc_getitem db_data "edges").

Definition get_versions : M docval :=
  db_data ← TypeDBClient.get_versions client;
  lift (doc_getitem db_data "versions").

Definition get_active_version : M (option string) :=
  TypeDBClient.get_active_version.

(** The dict [{"status": "ok"}] the write methods return. *)
Definition status_ok : pydict := [("status", VStr "ok")].

Definition create_version (version : string) : M pydict :=
  graph_by_version_create client version;;
  ret status_ok.

Definition delete_version (version : string) : M pydict :=
  graph_by_version_delete client (Some version);;
  ret status_ok.

Definition set_active_version (version : string) : M pydict :=
  TypeDBClient.set_active_version client version;;
  ret status_ok.

Definition update_graph (version : string) (nodes edges : list pyobj)
  : M pydict :=
  TypeDBClient.update_graph client (Some version) nodes edges;;
  ret status_ok.
End Service.

End GraphService.

(** ** A concrete client, for running the definitions *)

Module Examples.
Import TypeQLTemplateDriver TypeDBClient.

(** The fragment of [str.format] with plain [{name}] fields only. *)
Fixpoint format_fields (render : pyval -> string)
    (params : gmap string pyval) (template : string) (field : option string)
  : format_outcome :=
  match template, field with
  | EmptyString, None => Formatted EmptyString
  | EmptyString, Some _ => FormatFailure "expected '}' before end of string"
  | String c rest, None =>
      if Ascii.eqb c "{" then format_fields render params rest (Some EmptyString)
      else if Ascii.eqb c "}" then
        FormatFailure "Single '}' encountered in format string"
      else
        match format_fields render params rest None with
        | Formatted q => Formatted (String c q)
        | failure => failure
        end
  | String c rest, Some name =>
      if Ascii.eqb c "}" then
        match params !! name with
        | None => FormatKeyError name
        | Some v =>
            match format_fields render params rest None with
            | Formatted q => Formatted (render v +:+ q)
            | failure => failure
            end
        end
      else format_fields render params rest (Some (name +:+ String c EmptyString))
  end.

(** Floats are not printed by the examples. *)
Definition show (v : pyval) : string :=
  match v with
  | VNone => "None"
  | VBool true => "True"
  | VBool false => "False"
  | VInt z => pretty z
  | VFloat _ => "<float>"
  | VStr s => s
  end.

Definition simple_format (template : string) (params : gmap string pyval)
  : format_outcome :=
  format_fields show params template None.

Definition op (params : list string) (template : string) : op_spec :=
  {| op_file := "op.tql"; op_params := list_to_set params;
     op_description := JNull; op_output := JNull; op_template := template |}.

(** The catalogue of the driver's tests. *)
Definition test_operations : gmap string op_spec :=
  list_to_map [
    ("op1", op ["param1"; "param2"]
               "match $x has name {param1}; insert $x has age {param2};");
    ("op2", op [] "match $y isa thing; get;")].

(** A catalogue with the operations the client consumes. *)
Definition board_operations : gmap string op_spec :=
  list_to_map [
    ("graph-by-version-get",
      op ["investigation_name"; "version"] "get {investigation_name} {version}");
    ("get-versions", op ["investigation_name"] "versions {investigation_name}");
    ("set-active-version",
      op ["investigation_name"; "version"] "activate {investigation_name} {version}");
    ("investigation-create", op ["investigation_name"] "create {investigation_name}");
    ("investigation-delete", op ["investigation_name"] "delete {investigation_name}");
    ("node-create",
      op ["investigation_name"; "version"; "node_id"; "name"; "pos_x"; "pos_y";
          "picture_path"; "description"] "node-create {node_id} {name}");
    ("node-update",
      op ["investigation_name"; "version"; "node_id"; "name"; "pos_x"; "pos_y";
          "picture_path"; "description"] "node-update {node_id} {name}");
    ("node-delete",
      op ["investigation_name"; "version"; "node_id"] "node-delete {node_id}");
    ("edge-create",
      op ["investigation_name"; "version"; "edge_id"; "node1_id"; "node2_id";
          "description"] "edge-create {edge_id} {node1_id} {node2_id}");
    ("edge-update",
      op ["investigation_name"; "version"; "edge_id"; "description"]
         "edge-update {edge_id}");
    ("edge-delete",
      op ["investigation_name"; "version"; "edge_id"] "edge-delete {edge_id}")].

(** An engine that stores nothing: every read returns [docs]; commits
    raise when [commit_fails], closes raise when [close_fails]. *)
Definition fixed_engine (docs : list document) (commit_fails close_fails : bool)
  : engine :=
  fun _ c =>
    match c with
    | DatabasesContains _ => Truth true
    | TxDocuments _ => Documents docs
    | TxCommit _ => if commit_fails then Raised else Done
    | TxClose _ => if close_fails then Raised else Done
    | ReadSchemaFile => Text "define"
    | _ => Done
    end.

Definition board_client (e : engine) : client :=
  {| db_name := "investigation_board";
     driver := e;
     template_driver := board_operations;
     INVESTIGATION_NAME := "tsarstvie";
     py_format := simple_format;
     repr_float := fun _ => "<float>";
     float_of_str := fun _ => None |}.

Definition fresh : world :=
  {| active_version := None; DEBUG_DB := None; trace := [] |}.

Definition two := S754_finite false 4503599627370496 (-51).

Definition db_node (id : Z) (name : string) (x y : spec_float) : pydict :=
  [("node_id", VInt id); ("name", VStr name); ("pos_x", VFloat x);
   ("pos_y", VFloat y); ("picture_path", VNone); ("description", VNone)].

Definition db_edge (id n1 n2 : Z) (description : string) : pydict :=
  [("edge_id", VInt id); ("node1", VInt n1); ("node2", VInt n2);
   ("description", VStr description)].

(** A [NodeDTO] and an [EdgeDTO]. *)
Definition NodeDTO (id : Z) (name : string) (x y : spec_float)
    (node_type : pyval) : pyobj :=
  OAttrs [("node_id", VInt id); ("name", VStr name); ("pos_x", VFloat x);
          ("pos_y", VFloat y); ("node_type", node_type);
          ("picture_path", VNone); ("description", VNone)].

Definition EdgeDTO (id n1 n2 : Z) (description : string) : pyobj :=
  OAttrs [("edge_id", VInt id); ("node1", VInt n1); ("node2", VInt n2);
          ("description", VStr description)].

Definition board (nodes edges : list pydict) : document :=
  [("version", DVal (VStr "v1")); ("nodes", DRows nodes); ("edges", DRows edges)].

(** A client whose every read returns [docs] and whose writes succeed. *)
Definition reading (docs : list document) : client :=
  board_client (fixed_engine docs false false).

(** A client whose every close raises. *)
Definition failing_close : client :=
  board_client (fixed_engine [] false true).

(** A stored board with one node and one edge, and the same state as the
    front end sends it. *)
Definition small_board : document :=
  board [db_node 1 "a" float_one two] [db_edge 7 1 1 "x"].

Definition small_nodes (node_type : pyval) : list pyobj :=
  [NodeDTO 1 "a" float_one two node_type].

Definition small_edges : list pyobj := [EdgeDTO 7 1 1 "x"].

(** A world in which [DEBUG_DB] is set. *)
Definition debugging : world :=
  {| active_version := None; DEBUG_DB := Some "1"; trace := [] |}.

(** A client with an empty catalogue. *)
Definition bare_client : client :=
  {| db_name := "investigation_board";
     driver := fixed_engine [] false false;
     template_driver := ∅;
     INVESTIGATION_NAME := "tsarstvie";
     py_format := simple_format;
     repr_float := fun _ => "<float>";
     float_of_str := fun _ => None |}.

(** The version directory of the driver's tests: a specification of two
    operations and their template files. *)
Definition spec_fields (operation file description : string)
    (params : list string) : list (string * json) :=
  [("operation", JStr operation); ("file", JStr file);
   ("description", JStr description); ("params", JList (JStr <$> params));
   ("output", JNull)].

Definition spec_entry (operation file description : string)
    (params : list string) : json :=
  JObject (spec_fields operation file description params).

Definition op1_entry : json :=
  spec_entry "op1" "op1.tql" "Test operation 1" ["param1"; "param2"].

Definition op2_entry : json :=
  spec_entry "op2" "op2.tql" "Test operation 2" [].

Definition test_spec : list json := [op1_entry; op2_entry].

Definition test_files : list (string * string) :=
  [("db/v0.1/op1.tql",
    "match $x has name {param1}; insert $x has age {param2};");
   ("db/v0.1/op2.tql", "match $y isa thing; get;")].

Definition test_fs (spec : list json) : file_system :=
  {| path_join := fun a b => a +:+ "/" +:+ b;
     isdir := fun path => String.eqb path "db/v0.1";
     isfile := fun path =>
       String.eqb path "db/v0.1/specification.json" || dict_mem test_files path;
     read_text := fun path =>
       match dict_lookup test_files path with
       | Some text => FileText text
       | None => FileError "No such file or directory"
       end;
     load_json := fun path =>
       if String.eqb path "db/v0.1/specification.json"
       then JsonValue (JList spec)
       else JsonError "No such file or directory";
     repr_json := fun _ => "<entry>" |}.

Definition op1_loaded : op_spec :=
  {| op_file := "op1.tql"; op_params := list_to_set ["param1"; "param2"];
     op_description := JStr "Test operation 1"; op_output := JNull;
     op_template := "match $x has name {param1}; insert $x has age {param2};" |}.

Definition op2_loaded : op_spec :=
  {| op_file := "op2.tql"; op_params := ∅;
     op_description := JStr "Test operation 2"; op_output := JNull;
     op_template := "match $y isa thing; get;" |}.

(** What the test directory loads to. *)
Definition test_loaded : gmap string op_spec :=
  list_to_map [("op1", op1_loaded); ("op2", op2_loaded)].

Definition op1_description : operation_description :=
  {| d_operation := "op1"; d_file := "op.tql"; d_description := JNull;
     d_params := ["param1"; "param2"]; d_output := JNull |}.
End Examples.



(** ** Vocabulary of the properties *)

Module Spec.
Import TypeQLTemplateDriver TypeDBClient.

(** The answer is the call raising. *)
Definition raises (r : response) : bool :=
  match r with Raised => true | _ => false end.

(** The call raised, as the client reads the answer. *)
Definition raised (ev : event) : bool :=
  match ev with
  | (_, Raised) => true
  | (DatabasesContains _, Truth _) => false
  | (DatabasesContains _, _) => true
  | (TxDocuments _, Documents _) => false
  | (TxDocuments _, _) => true
  | (ReadSchemaFile, Text _) => false
  | (ReadSchemaFile, _) => true
  | _ => false
  end.

(** A query, a materialisation of documents or a commit on transaction
    [tx]. *)
Definition within (tx : nat) (ev : event) : Prop :=
  match ev.1 with
  | TxQuery tx' _ | TxDocuments tx' | TxCommit tx' => tx' = tx
  | _ => False
  end.

(** The operation name an entry of the specification declares. *)
Definition entry_name (entry : json) : option string :=
  match entry with
  | JObject fields => json_str (json_get fields "operation")
  | _ => None
  end.

(** The loaded operation [op] is what the entry [entry] declares under
    the file system [fs]: its file name, the set of its listed parameters,
    and the text of its template file. *)
Definition loaded_from (fs : file_system) (base_dir : string) (entry : json)
    (op : op_spec) : Prop :=
  ∃ fields params names,
    entry = JObject fields
    ∧ json_get fields "file" = JStr (op_file op)
    ∧ json_get fields "params" = JList params
    ∧ json_strings params = Some names
    ∧ op_params op = list_to_set names
    ∧ isfile fs (path_join fs base_dir (op_file op)) = true
    ∧ read_text fs (path_join fs base_dir (op_file op))
        = FileText (op_template op).

(** A run that invokes no write method. *)
Definition silent {A} (m : M A) : Prop := ∀ w, log (m w) = [].

(** A run that invokes no write method and leaves the cache and the
    environment alone. *)
Definition quiet {A} (m : M A) : Prop :=
  ∀ w, log (m w) = []
       ∧ active_version (final (m w)) = active_version w
       ∧ DEBUG_DB (final (m w)) = DEBUG_DB w.

Definition succeeded {A} (r : result A) : bool :=
  match r with Ok _ => true | Raise _ => false end.

(** The history [t1] extends [t0] by one transaction of kind [tx_type] on
    database [db]: either the opening call raised and nothing else
    happened, or the transaction was opened, some calls happened within it,
    and it was closed, whatever the close answered.  [ok] tells whether the
    opening and every call within returned. *)
Definition scoped (db : string) (tx_type : TransactionType)
    (t0 t1 : list event) (ok : bool) : Prop :=
  (t1 = t0 ++ [(TransactionOpen db tx_type, Raised)] ∧ ok = false)
  ∨ ∃ opened inner closed,
      opened ≠ Raised
      ∧ t1 = t0 ++ (TransactionOpen db tx_type, opened) :: inner
                ++ [(TxClose (length t0), closed)]
      ∧ Forall (within (length t0)) inner
      ∧ ok = forallb (λ ev, negb (raised ev)) inner.

(** The write method a logged call stands for, its version argument and
    the operation of the catalogue it renders. *)
Definition run_call (self : client) (c : client_call) : M unit :=
  match c with
  | NodeDelete node_id version => node_delete self node_id version
  | NodeCreate node_id name pos_x pos_y picture_path description version =>
      node_create self node_id name pos_x pos_y picture_path description version
  | NodeUpdate node_id name pos_x pos_y picture_path description version =>
      node_update self node_id name pos_x pos_y picture_path description version
  | EdgeDelete edge_id version => edge_delete self edge_id version
  | EdgeCreate edge_id node1_id node2_id description version =>
      edge_create self edge_id node1_id node2_id description version
  | EdgeUpdate edge_id description version =>
      edge_update self edge_id description version
  end.

Definition call_version (c : client_call) : option string :=
  match c with
  | NodeDelete _ v | NodeCreate _ _ _ _ _ _ v | NodeUpdate _ _ _ _ _ _ v
  | EdgeDelete _ v | EdgeCreate _ _ _ _ v | EdgeUpdate _ _ v => v
  end.

Definition call_operation (c : client_call) : string :=
  match c with
  | NodeDelete _ _ => "node-delete"
  | NodeCreate _ _ _ _ _ _ _ => "node-create"
  | NodeUpdate _ _ _ _ _ _ _ => "node-update"
  | EdgeDelete _ _ => "edge-delete"
  | EdgeCreate _ _ _ _ _ => "edge-create"
  | EdgeUpdate _ _ _ => "edge-update"
  end.

(** The run raised [e] and left the world as it was: nothing reached the
    engine. *)
Definition refused {A} (o : outcome A) (e : exn) (w : world) : Prop :=
  res o = Raise e ∧ final o = w.

(** The version a call uses in the world [w], if any. *)
Definition version_in (w : world) (version : option string) : option string :=
  match version with
  | Some v => Some v
  | None => active_version w
  end.

(** One write of the catalogue started in [w]: the cache and the
    environment are kept; either nothing reached the engine and the error
    is that of the version or of the template, or the history grew by one
    WRITE transaction on [db] and the run returned or raised
    [QueryExecutionError]. *)
Definition one_write (db : string) (w : world) (o : outcome unit) : Prop :=
  active_version (final o) = active_version w
  ∧ DEBUG_DB (final o) = DEBUG_DB w
  ∧ ((final o = w
      ∧ (res o = Raise ActiveVersionError
         ∨ res o = Raise TemplateProcessingError))
     ∨ (scoped db WRITE (trace w) (trace (final o)) (succeeded (res o))
        ∧ (res o = Ok tt ∨ res o = Raise QueryExecutionError))).

(** A run that keeps the cached active version and the environment. *)
Definition keeps {A} (m : M A) : Prop :=
  ∀ w, active_version (final (m w)) = active_version w
       ∧ DEBUG_DB (final (m w)) = DEBUG_DB w.

(** The object [n] has the id [k] under the field [key], in string form. *)
Definition has_id (self : client) (key k : string) (n : pyobj) : bool :=
  match get_field n key with
  | Ok v => String.eqb (py_str self v) k
  | Raise _ => false
  end.



(** The phase of [update_graph] a call belongs to by its kind. *)
Definition phase (c : client_call) : nat :=
  match c with
  | NodeDelete _ _ => 0
  | NodeCreate _ _ _ _ _ _ _ => 1
  | NodeUpdate _ _ _ _ _ _ _ => 2
  | EdgeDelete _ _ => 3
  | EdgeCreate _ _ _ _ _ => 4
  | EdgeUpdate _ _ _ => 5
  end.

Fixpoint nondecreasing (l : list nat) : bool :=
  match l with
  | a :: (b :: _) as l' => (a <=? b)%nat && nondecreasing l'
  | _ => true
  end.

(** No call of an earlier phase after a call of a later phase. *)
Definition phase_ordered (calls : list client_call) : bool :=
  nondecreasing (phase <$> calls).

(** The calls of the last loop over edges: an update of a description, or
    a delete followed at once by a create under the same id; the run ends
    after a delete that raised. *)
Inductive recreate_or_update : list client_call → Prop :=
| rou_done : recreate_or_update []
| rou_update edge_id description version calls :
    recreate_or_update calls →
    recreate_or_update (EdgeUpdate edge_id description version :: calls)
| rou_recreate edge_id node1_id node2_id description version calls :
    recreate_or_update calls →
    recreate_or_update
      (EdgeDelete edge_id version
         :: EdgeCreate edge_id node1_id node2_id description version :: calls)
| rou_aborted edge_id version :
    recreate_or_update [EdgeDelete edge_id version].

(** The call is a node call on the node [node_id_str]. *)
Definition on_node (node_id_str : string) (c : client_call) : Prop :=
  match c with
  | NodeDelete i _ | NodeCreate i _ _ _ _ _ _ | NodeUpdate i _ _ _ _ _ _ =>
      i = VStr node_id_str
  | _ => False
  end.

(** The call is an edge call on the edge [edge_id_str]. *)
Definition on_edge (edge_id_str : string) (c : client_call) : Prop :=
  match c with
  | EdgeDelete i _ | EdgeCreate i _ _ _ _ | EdgeUpdate i _ _ =>
      i = VStr edge_id_str
  | _ => False
  end.

(** Two float fields hold equal floats. *)
Definition float_fields_equal (a b : result spec_float) : bool :=
  match a, b with
  | Ok x, Ok y => SFeqb x y
  | _, _ => false
  end.

Section Compared.
Variable self : client.

(** The persisted node [db_node] and the desired node [node_obj] are equal
    in the compared fields: name, pos_x and pos_y as floats, picture_path
    and description. *)
Definition node_fields_equal (db_node : pydict) (node_obj : pyobj) : bool :=
  match get_field node_obj "name", get_field node_obj "picture_path",
        get_field node_obj "description" with
  | Ok name, Ok picture_path, Ok description =>
      py_eq (dict_get db_node "name") name
      && float_fields_equal (py_float self (dict_get db_node "pos_x"))
           (get_field node_obj "pos_x" ≫= py_float self)
      && float_fields_equal (py_float self (dict_get db_node "pos_y"))
           (get_field node_obj "pos_y" ≫= py_float self)
      && py_eq (dict_get db_node "picture_path") picture_path
      && py_eq (dict_get db_node "description") description
  | _, _, _ => false
  end.

(** The persisted and the desired edge are equal in the compared fields:
    the two endpoints in their string form, and the description. *)
Definition edge_fields_equal (db_edge : pydict) (edge_obj : pyobj) : bool :=
  match get_field edge_obj "node1", get_field edge_obj "node2",
        get_field edge_obj "description" with
  | Ok node1, Ok node2, Ok description =>
      String.eqb (py_str self (dict_get db_edge "node1")) (py_str self node1)
      && String.eqb (py_str self (dict_get db_edge "node2")) (py_str self node2)
      && py_eq (dict_get db_edge "description") description
  | _, _, _ => false
  end.

(** The two indexes hold the same ids, and under each id entities that are
    equal in the compared fields. *)
Definition same_entities (equal : pydict → pyobj → bool)
    (db_by_id : list (string * pydict)) (new_by_id : list (string * pyobj))
  : bool :=
  forallb (λ item, match dict_lookup new_by_id item.1 with
                   | Some obj => equal item.2 obj
                   | None => false
                   end) db_by_id
  && forallb (λ item, dict_mem db_by_id item.1) new_by_id.

(** The four indexes [update_graph] builds from the document it read and
    from its arguments, in the order of the source. *)
Definition indexes (db_graph : document) (nodes edges : list pyobj)
  : result (list (string * pydict) * list (string * pyobj)
            * list (string * pydict) * list (string * pyobj)) :=
  db_nodes ← doc_getitem db_graph "nodes";
  db_edges ← doc_getitem db_graph "edges";
  db_nodes_by_id ← (rows_of db_nodes ≫= λ rows, index_rows self "node_id" rows []);
  new_nodes_by_id ← index_objs self "node_id" nodes [];
  db_edges_by_id ← (rows_of db_edges ≫= λ rows, index_rows self "edge_id" rows []);
  new_edges_by_id ← index_objs self "edge_id" edges [];
  Ok (db_nodes_by_id, new_nodes_by_id, db_edges_by_id, new_edges_by_id).

(** The persisted state in [db_graph] equals the desired state
    [nodes], [edges]. *)
Definition persisted_equals_desired (db_graph : document)
    (nodes edges : list pyobj) : bool :=
  match indexes db_graph nodes edges with
  | Ok (db_nodes_by_id, new_nodes_by_id, db_edges_by_id, new_edges_by_id) =>
      same_entities node_fields_equal db_nodes_by_id new_nodes_by_id
      && same_entities edge_fields_equal db_edges_by_id new_edges_by_id
  | Raise _ => false
  end.
End Compared.

(** [n'] is [n] but for the field [node_type]. *)
Definition same_but_node_type (n n' : pyobj) : Prop :=
  ∀ field, field ≠ "node_type" → get_field n field = get_field n' field.

(** Two indexes of desired nodes with the same ids in the same order, the
    nodes under each id differing in [node_type] at most. *)
Definition same_index (l l' : list (string * pyobj)) : Prop :=
  Forall2 (λ a b, a.1 = b.1 ∧ same_but_node_type a.2 b.2) l l'.

End Spec.

(** * Properties *)

(** ** The query renderer *)

Section RendererProperties.
Import TypeQLTemplateDriver.

Variable py_format : string → gmap string pyval → format_outcome.
Variable operations : gmap string op_spec.

Lemma sorted_names_listing (s : gset string) :
  sorted_listing s (sorted_names s).
Proof.
  unfold sorted_listing, sorted_names. split; [|split].
  - apply (Sorted_merge_sort str_le).
  - rewrite merge_sort_Permutation. apply NoDup_elements.
  - intros x. rewrite merge_sort_Permutation. apply elem_of_elements.
Qed.

Lemma merge_params_dict operation (params kwargs : gmap string pyval) :
  merge_params operation (ParamsDict params) kwargs = Ok (kwargs ∪ params).
Proof.
  unfold merge_params, params_truthy.
  assert (Hm : (if bool_decide (params ≠ ∅)
                then Ok (params ∪ (∅ : gmap string pyval))
                else Ok (∅ : gmap string pyval)) = Ok params).
  { case_bool_decide as Hp.
    - by rewrite (right_id_L ∅ (∪)).
    - by subst. }
  rewrite Hm. clear Hm. simpl. case_bool_decide as Hk; [done|].
  subst kwargs. by rewrite (left_id_L ∅ (∪)).
Qed.

Lemma merge_params_none operation (kwargs : gmap string pyval) :
  merge_params operation params_none kwargs = Ok kwargs.
Proof.
  unfold merge_params. simpl. case_bool_decide as Hk.
  - by rewrite (right_id_L ∅ (∪)).
  - by subst.
Qed.

(** C4.  For a known operation and the merged parameters [kwargs ∪ params]:
    when [required ∖ provided] is not empty, [get_operation] raises
    [OperationError] with the missing names listed in increasing order,
    joined by a comma and a space; otherwise, when [provided ∖ required] is
    not empty, it raises [OperationError] listing the extra names the same
    way; the template is formatted exactly when [provided = required]. *)
Theorem get_operation_strict_arity
    (operation : string) (op : op_spec) (params kwargs : gmap string pyval) :
  operations !! operation = Some op →
  let merged := kwargs ∪ params in
  let required := op_params op in
  let provided := dom merged in
  let outcome :=
    get_operation py_format operations operation (ParamsDict params) kwargs in
  (required ∖ provided ≠ ∅ →
     ∃ names,
       sorted_listing (required ∖ provided) names ∧
       outcome = Raise (OperationError
         ("Operation " +:+ dq +:+ operation +:+ dq
            +:+ " is missing required parameter(s): "
            +:+ String.concat ", " names +:+ ".")))
  ∧ (required ∖ provided = ∅ → provided ∖ required ≠ ∅ →
     ∃ names,
       sorted_listing (provided ∖ required) names ∧
       outcome = Raise (OperationError
         ("Operation " +:+ dq +:+ operation +:+ dq
            +:+ " received unknown parameter(s): "
            +:+ String.concat ", " names +:+ ".")))
  ∧ (provided = required →
     outcome =
       match py_format (op_template op) merged with
       | Formatted query => Ok query
       | FormatKeyError key =>
           Raise (OperationError (msg_format_key operation key))
       | FormatFailure text =>
           Raise (OperationError (msg_format_failure operation text))
       end)
  ∧ (∀ query, outcome = Ok query → provided = required).
Proof.
  intros Hop merged required provided outcome.
  assert (Hout : outcome = render py_format operation op merged).
  { unfold outcome, get_operation. rewrite Hop, merge_params_dict. done. }
  rewrite Hout. unfold render. fold required provided.
  repeat split.
  - intros Hmiss. exists (sorted_names (required ∖ provided)).
    split; [apply sorted_names_listing|].
    by rewrite bool_decide_eq_true_2.
  - intros Hmiss Hextra. exists (sorted_names (provided ∖ required)).
    split; [apply sorted_names_listing|].
    rewrite bool_decide_eq_false_2 by (intros Hne; by apply Hne).
    by rewrite bool_decide_eq_true_2.
  - intros Heq. rewrite Heq.
    rewrite !bool_decide_eq_false_2; first done;
      intros Hne; apply Hne, difference_diag_L.
  - intros query. repeat case_bool_decide; try done.
    intros _.
    rename select (required ∖ provided = ∅) into Hm.
    rename select (provided ∖ required = ∅) into He.
    apply set_eq. intros x. split; intros Hx.
    + destruct (decide (x ∈ required)) as [|Hn]; [done|].
      assert (x ∈ provided ∖ required) as Hin by by apply elem_of_difference.
      rewrite He in Hin. by apply not_elem_of_empty in Hin.
    + destruct (decide (x ∈ provided)) as [|Hn]; [done|].
      assert (x ∈ required ∖ provided) as Hin by by apply elem_of_difference.
      rewrite Hm in Hin. by apply not_elem_of_empty in Hin.
Qed.

(** C8, as the code has it.  For a known operation, a [params] argument
    that is not a [dict] and is true in a boolean context makes
    [get_operation] raise [OperationError] saying that the parameters must
    be a dict and naming the type it got; with [params=None], the default,
    the keyword parameters alone are the merged mapping. *)
Theorem get_operation_non_dict_params
    (operation : string) (op : op_spec) (type_name : string)
    (kwargs : gmap string pyval) :
  operations !! operation = Some op →
  get_operation py_format operations operation
      (ParamsOther true type_name) kwargs
    = Raise (OperationError
        ("Parameters for operation " +:+ dq +:+ operation +:+ dq
           +:+ " must be a dict, got " +:+ type_name +:+ "."))
  ∧ get_operation py_format operations operation params_none kwargs
    = render py_format operation op kwargs.
Proof.
  intros Hop. unfold get_operation. rewrite Hop. split; [done|].
  by rewrite merge_params_none.
Qed.
End RendererProperties.

Import TypeQLTemplateDriver TypeDBClient Examples.

Lemma get_operation_strict_arity_witness :
  let outcome :=
    get_operation simple_format test_operations "op1"
      (ParamsDict {[ "param1" := VStr "Alice" ]}) {[ "extra" := VInt 1 ]} in
  ∃ names,
    sorted_listing ({[ "param1"; "param2" ]} ∖ {[ "extra"; "param1" ]}) names ∧
    outcome = Raise (OperationError
      ("Operation " +:+ dq +:+ "op1" +:+ dq
         +:+ " is missing required parameter(s): "
         +:+ String.concat ", " names +:+ ".")).
Proof.
  intros outcome.
  destruct (get_operation_strict_arity simple_format test_operations "op1"
              (op ["param1"; "param2"]
                 "match $x has name {param1}; insert $x has age {param2};")
              {[ "param1" := VStr "Alice" ]} {[ "extra" := VInt 1 ]}
              eq_refl) as (Hmissing & _).
  destruct Hmissing as (names & Hl & Hout).
  - vm_compute. discriminate.
  - exists names. split; [|exact Hout].
    replace ({[ "param1"; "param2" ]} ∖ {[ "extra"; "param1" ]} : gset string)
      with (op_params (op ["param1"; "param2"]
                 "match $x has name {param1}; insert $x has age {param2};")
            ∖ dom ({[ "extra" := VInt 1 ]} ∪ {[ "param1" := VStr "Alice" ]}
                   : gmap string pyval)); [exact Hl|].
    by vm_compute.
Defined.

(** C8 as stated fails: [None] is not a mapping, and [get_operation] with
    [params=None] returns the query. *)
Lemma get_operation_none_params_accepted :
  get_operation simple_format test_operations "op2" params_none ∅
    = Ok "match $y isa thing; get;".
Proof. reflexivity. Qed.

Lemma get_operation_non_dict_params_witness :
  get_operation simple_format test_operations "op1"
      (ParamsOther true "list") ∅
    = Raise (OperationError
        ("Parameters for operation " +:+ dq +:+ "op1" +:+ dq
           +:+ " must be a dict, got " +:+ "list" +:+ ".")).
Proof.
  exact (proj1 (get_operation_non_dict_params simple_format test_operations
                  "op1" _ "list" ∅ eq_refl)).
Defined.

(** ** The transactional client *)

Section ClientProperties.
Import TypeQLTemplateDriver TypeDBClient Spec.

Variable self : client.

(** The world after the call [c] made in [w]. *)
Local Abbreviation after c w := (record_event (c, driver self (trace w) c) w).

Lemma raises_false r : raises r = false → r ≠ Raised.
Proof. by destruct r. Qed.

Lemma bind_run {A B} (m : M A) (k : A → M B) w :
  (m ≫= k) w =
    match res (m w) with
    | Ok a =>
        {| res := res (k a (final (m w))); final := final (k a (final (m w)));
           log := log (m w) ++ log (k a (final (m w))) |}
    | Raise e => {| res := Raise e; final := final (m w); log := log (m w) |}
    end.
Proof. reflexivity. Qed.

Lemma outcome_eta {A} (o : outcome A) :
  {| res := res o; final := final o; log := log o |} = o.
Proof. by destruct o. Qed.

Lemma bind_ret_run {A B} (a : A) (k : A → M B) w : (ret a ≫= k) w = k a w.
Proof. rewrite bind_run. cbn [ret res final log app]. apply outcome_eta. Qed.

Lemma bind_lift_run {A B} (r : result A) (k : A → M B) w :
  (lift r ≫= k) w =
    match r with
    | Ok a => k a w
    | Raise e => raise e w
    end.
Proof.
  rewrite bind_run. destruct r; cbn [lift res final log app];
    [apply outcome_eta|done].
Qed.

(** A call that must only not raise. *)
Lemma perform_done_run c w :
  (perform self c ≫= expect_done) w =
    {| res := if raises (driver self (trace w) c)
              then Raise DriverException else Ok tt;
       final := after c w; log := [] |}.
Proof.
  rewrite bind_run. cbn [perform res final log].
  by destruct (driver self (trace w) c).
Qed.

(** Closing never raises to the caller. *)
Lemma close_run tx w :
  try_except (perform self (TxClose tx) ≫= expect_done) (λ _, ret tt) w =
    {| res := Ok tt; final := after (TxClose tx) w; log := [] |}.
Proof.
  unfold try_except. rewrite perform_done_run. cbn [res final log].
  by destruct (raises _).
Qed.

(** The context manager: a failed opening raises [QueryExecutionError];
    otherwise the run is the body's, followed by the close. *)
Lemma transaction_run {A} tx_type (body : nat → M A) w :
  let c := TransactionOpen (db_name self) tx_type in
  let ob := body (length (trace w)) (after c w) in
  transaction self tx_type body w =
    if raises (driver self (trace w) c) then
      {| res := Raise QueryExecutionError; final := after c w; log := [] |}
    else
      {| res := res ob; final := after (TxClose (length (trace w))) (final ob);
         log := log ob |}.
Proof.
  intros c ob. unfold transaction. rewrite bind_run.
  cbn [next_tx res final log app]. rewrite bind_run.
  cbn [perform res final log app]. fold c.
  destruct (driver self (trace w) c) eqn:E; cbn [raises]; [done|..];
    unfold finally; rewrite close_run; cbn [res final log]; fold ob;
    by rewrite app_nil_r.
Qed.

(** The shape shared by [_execute_write], [_execute_read] and the schema
    step: a transaction whose every failure is a [QueryExecutionError]. *)
Lemma guarded_transaction_run {A} tx_type (body : nat → M A) w :
  let c := TransactionOpen (db_name self) tx_type in
  let ob := body (length (trace w)) (after c w) in
  try_except (transaction self tx_type body) (λ _, raise QueryExecutionError) w =
    if raises (driver self (trace w) c) then
      {| res := Raise QueryExecutionError; final := after c w; log := [] |}
    else
      {| res := match res ob with
                | Ok a => Ok a
                | Raise _ => Raise QueryExecutionError
                end;
         final := after (TxClose (length (trace w))) (final ob);
         log := log ob |}.
Proof.
  intros c ob. unfold try_except. rewrite transaction_run. fold c ob.
  destruct (raises (driver self (trace w) c)); cbn [res final log raise app];
    [done|].
  destruct (res ob); cbn [res final log raise app]; [done|].
  by rewrite app_nil_r.
Qed.

(** The body of a write: the query, then the commit. *)
Lemma write_body_run tx query w :
  let w1 := after (TxQuery tx query) w in
  (perform self (TxQuery tx query) ≫= expect_done;;
   perform self (TxCommit tx) ≫= expect_done) w =
    if raises (driver self (trace w) (TxQuery tx query)) then
      {| res := Raise DriverException; final := w1; log := [] |}
    else
      {| res := if raises (driver self (trace w1) (TxCommit tx))
                then Raise DriverException else Ok tt;
         final := after (TxCommit tx) w1; log := [] |}.
Proof.
  intros w1. rewrite bind_run, perform_done_run. cbn [res final log app].
  fold w1. destruct (raises (driver self (trace w) (TxQuery tx query))); [done|].
  by rewrite perform_done_run.
Qed.

(** The body of a read: the query, then the documents. *)
Lemma read_body_run tx query w :
  let w1 := after (TxQuery tx query) w in
  (perform self (TxQuery tx query) ≫= expect_done;;
   perform self (TxDocuments tx) ≫= expect_documents) w =
    if raises (driver self (trace w) (TxQuery tx query)) then
      {| res := Raise DriverException; final := w1; log := [] |}
    else
      {| res := match driver self (trace w1) (TxDocuments tx) with
                | Documents docs => Ok docs
                | _ => Raise DriverException
                end;
         final := after (TxDocuments tx) w1; log := [] |}.
Proof.
  intros w1. rewrite bind_run, perform_done_run. cbn [res final log app].
  fold w1. destruct (raises (driver self (trace w) (TxQuery tx query))); [done|].
  rewrite bind_run. cbn [perform res final log app].
  by destruct (driver self (trace w1) (TxDocuments tx)).
Qed.

Lemma write_body_log tx query w :
  log ((perform self (TxQuery tx query) ≫= expect_done;;
        perform self (TxCommit tx) ≫= expect_done) w) = [].
Proof. rewrite write_body_run. by destruct (raises _). Qed.

Lemma read_body_log tx query w :
  log ((perform self (TxQuery tx query) ≫= expect_done;;
        perform self (TxDocuments tx) ≫= expect_documents) w) = [].
Proof. rewrite read_body_run. by destruct (raises _). Qed.

Lemma _execute_write_run op_name query w :
  let c := TransactionOpen (db_name self) WRITE in
  let tx := length (trace w) in
  let ob := (perform self (TxQuery tx query) ≫= expect_done;;
             perform self (TxCommit tx) ≫= expect_done) (after c w) in
  _execute_write self op_name query w =
    if raises (driver self (trace w) c) then
      {| res := Raise QueryExecutionError; final := after c w; log := [] |}
    else
      {| res := match res ob with
                | Ok a => Ok a
                | Raise _ => Raise QueryExecutionError
                end;
         final := after (TxClose tx) (final ob); log := [] |}.
Proof.
  intros c tx ob. unfold _execute_write. rewrite guarded_transaction_run.
  fold c tx ob. unfold ob. by rewrite write_body_log.
Qed.

Lemma _execute_read_run op_name query w :
  let c := TransactionOpen (db_name self) READ in
  let tx := length (trace w) in
  let ob := (perform self (TxQuery tx query) ≫= expect_done;;
             perform self (TxDocuments tx) ≫= expect_documents) (after c w) in
  _execute_read self op_name query w =
    if raises (driver self (trace w) c) then
      {| res := Raise QueryExecutionError; final := after c w; log := [] |}
    else
      {| res := match res ob with
                | Ok a => Ok a
                | Raise _ => Raise QueryExecutionError
                end;
         final := after (TxClose tx) (final ob); log := [] |}.
Proof.
  intros c tx ob. unfold _execute_read. rewrite guarded_transaction_run.
  fold c tx ob. unfold ob. by rewrite read_body_log.
Qed.

Lemma _execute_write_quiet op_name query : quiet (_execute_write self op_name query).
Proof.
  intros w. rewrite _execute_write_run. cbv zeta.
  destruct (raises (driver self (trace w) _)); cbn [res final log]; [done|].
  rewrite write_body_run. cbv zeta.
  by destruct (raises (driver self _ (TxQuery _ _))).
Qed.

Lemma _execute_write_res op_name query w :
  res (_execute_write self op_name query w) = Ok tt
  ∨ res (_execute_write self op_name query w) = Raise QueryExecutionError.
Proof.
  rewrite _execute_write_run. cbv zeta.
  destruct (raises (driver self (trace w) _)); cbn [res]; [by right|].
  match goal with |- context [res ?o] => destruct (res o) as [[]|] end; auto.
Qed.

Lemma _execute_read_quiet op_name query : quiet (_execute_read self op_name query).
Proof.
  intros w. rewrite _execute_read_run. cbv zeta.
  destruct (raises (driver self (trace w) _)); cbn [res final log]; [done|].
  rewrite read_body_run. cbv zeta.
  by destruct (raises (driver self _ (TxQuery _ _))).
Qed.

Lemma _execute_read_raises op_name query w e :
  res (_execute_read self op_name query w) = Raise e → e = QueryExecutionError.
Proof.
  rewrite _execute_read_run. cbv zeta.
  destruct (raises (driver self (trace w) _)); cbn [res]; [congruence|].
  match goal with |- context [res ?o] => destruct (res o) end; congruence.
Qed.

(** [get_operation] raises nothing but [OperationError]. *)
Lemma get_operation_raises operation params kwargs e :
  get_operation (py_format self) (template_driver self) operation params kwargs
    = Raise e →
  ∃ msg, e = OperationError msg.
Proof.
  unfold get_operation.
  destruct (template_driver self !! operation) as [op|]; [|intros [= <-]; eauto].
  destruct (merge_params operation params kwargs) as [merged|e'] eqn:Em.
  - cbn [rbind]. unfold render.
    repeat case_bool_decide; try (intros [= <-]; by eauto).
    destruct (py_format self _ _); intros [= <-]; eauto.
  - cbn [rbind]. intros [= <-]. revert Em. unfold merge_params.
    destruct (params_truthy params), params; cbn [rbind];
      repeat case_bool_decide; intros [= <-]; eauto.
Qed.

(** Building a query touches nothing; it returns the rendered query or
    raises [TemplateProcessingError]. *)
Lemma _build_query_run op_name params w :
  _build_query self op_name params w =
    {| res := match get_operation (py_format self) (template_driver self)
                      op_name params_none params with
              | Ok query => Ok query
              | Raise _ => Raise TemplateProcessingError
              end;
       final := w; log := [] |}.
Proof.
  unfold _build_query.
  destruct (get_operation _ _ _ _ _) eqn:E; [done|].
  apply get_operation_raises in E as [msg ->]. done.
Qed.

Lemma _resolve_version_run version w :
  _resolve_version version w =
    lift (match version with
          | Some v => Ok v
          | None =>
              match active_version w with
              | Some v => Ok v
              | None => Raise ActiveVersionError
              end
          end) w.
Proof.
  destruct version; [done|]. unfold _resolve_version. rewrite bind_run.
  cbn [get_active_version res final log app]. by destruct (active_version w).
Qed.

Lemma snoc3 {X} (t : list X) a b c :
  ((t ++ [a]) ++ [b]) ++ [c] = t ++ a :: [b] ++ [c].
Proof. by rewrite <- !app_assoc. Qed.

Lemma snoc4 {X} (t : list X) a b c d :
  (((t ++ [a]) ++ [b]) ++ [c]) ++ [d] = t ++ a :: [b; c] ++ [d].
Proof. by rewrite <- !app_assoc. Qed.

Lemma raises_true r : raises r = true → r = Raised.
Proof. by destruct r. Qed.

Lemma raised_query tx query r : raised (TxQuery tx query, r) = raises r.
Proof. by destruct r. Qed.

Lemma raised_commit tx r : raised (TxCommit tx, r) = raises r.
Proof. by destruct r. Qed.

Lemma raised_documents tx r :
  raised (TxDocuments tx, r) = match r with Documents _ => false | _ => true end.
Proof. by destruct r. Qed.

Lemma scoped_query_commit tx_type query w :
  let o := try_except
             (transaction self tx_type (λ tx,
                perform self (TxQuery tx query) ≫= expect_done;;
                perform self (TxCommit tx) ≫= expect_done))
             (λ _, raise QueryExecutionError) w in
  scoped (db_name self) tx_type (trace w) (trace (final o)) (succeeded (res o))
  ∧ log o = []
  ∧ (res o = Ok tt ∨ res o = Raise QueryExecutionError).
Proof.
  intros o. unfold o. rewrite guarded_transaction_run. cbv zeta.
  set (c := TransactionOpen (db_name self) tx_type).
  set (tx := length (trace w)).
  destruct (raises (driver self (trace w) c)) eqn:E0.
  { apply raises_true in E0. split; [|by auto]. left.
    cbn [final res trace record_event succeeded]. by rewrite E0. }
  apply raises_false in E0.
  rewrite write_body_run. cbv zeta.
  set (w1 := after c w).
  set (r1 := driver self (trace w1) (TxQuery tx query)).
  destruct (raises r1) eqn:E1.
  { split; [|by auto]. right.
    exists (driver self (trace w) c), [(TxQuery tx query, r1)].
    eexists. split; [done|]. split; [|split].
    - cbn [final trace record_event]. unfold w1.
      cbn [trace record_event]. apply snoc3.
    - by repeat constructor.
    - cbn [res succeeded forallb]. by rewrite raised_query, E1. }
  set (w2 := after (TxQuery tx query) w1).
  set (r2 := driver self (trace w2) (TxCommit tx)).
  split; [|split; [done|]]; last first.
  { cbn [res]. destruct (raises (driver self _ (TxCommit tx))); by auto. }
  right.
  exists (driver self (trace w) c), [(TxQuery tx query, r1); (TxCommit tx, r2)].
  eexists. split; [done|]. split; [|split].
  - cbn [final trace record_event]. unfold w2, w1.
    cbn [trace record_event]. apply snoc4.
  - by repeat constructor.
  - cbn [res succeeded forallb]. rewrite raised_query, raised_commit, E1.
    unfold r2, w2. by destruct (raises (driver self _ (TxCommit tx))).
Qed.

Lemma scoped_read op_name query w :
  let o := _execute_read self op_name query w in
  scoped (db_name self) READ (trace w) (trace (final o)) (succeeded (res o)).
Proof.
  intros o. unfold o. rewrite _execute_read_run. cbv zeta.
  set (c := TransactionOpen (db_name self) READ).
  set (tx := length (trace w)).
  destruct (raises (driver self (trace w) c)) eqn:E0.
  { apply raises_true in E0. left.
    cbn [final res trace record_event succeeded]. by rewrite E0. }
  apply raises_false in E0.
  rewrite read_body_run. cbv zeta.
  set (w1 := after c w).
  set (r1 := driver self (trace w1) (TxQuery tx query)).
  destruct (raises r1) eqn:E1.
  { right.
    exists (driver self (trace w) c), [(TxQuery tx query, r1)].
    eexists. split; [done|]. split; [|split].
    - cbn [final trace record_event]. unfold w1.
      cbn [trace record_event]. apply snoc3.
    - by repeat constructor.
    - cbn [res succeeded forallb]. by rewrite raised_query, E1. }
  set (w2 := after (TxQuery tx query) w1).
  set (r2 := driver self (trace w2) (TxDocuments tx)).
  right.
  exists (driver self (trace w) c), [(TxQuery tx query, r1); (TxDocuments tx, r2)].
  eexists. split; [done|]. split; [|split].
  - cbn [final trace record_event]. unfold w2, w1.
    cbn [trace record_event]. apply snoc4.
  - by repeat constructor.
  - cbn [res succeeded forallb]. rewrite raised_query, raised_documents, E1.
    unfold r2, w2. by destruct (driver self _ (TxDocuments tx)).
Qed.

(** C9.  The context manager returns or raises what its body does, and the
    close is the last call, whatever it answers.  Every run of
    [_execute_write], of [_execute_read] and of the schema step of
    [investigation_create] extends the history by one transaction that is
    closed when the helper returns or raises, unless it could not be opened;
    the helper succeeds exactly when the opening and the calls within the
    transaction returned, and raises [QueryExecutionError] otherwise: the
    answer of the close plays no part. *)
Theorem transaction_discipline :
  (∀ A tx_type (body : nat → M A) w,
     let c := TransactionOpen (db_name self) tx_type in
     let ob := body (length (trace w)) (after c w) in
     let o := transaction self tx_type body w in
     driver self (trace w) c ≠ Raised →
     res o = res ob
     ∧ ∃ closed,
         trace (final o) = trace (final ob) ++ [(TxClose (length (trace w)), closed)])
  ∧ (∀ op_name query w,
       let o := _execute_write self op_name query w in
       scoped (db_name self) WRITE (trace w) (trace (final o)) (succeeded (res o))
       ∧ (res o = Ok tt ∨ res o = Raise QueryExecutionError))
  ∧ (∀ op_name query w,
       let o := _execute_read self op_name query w in
       scoped (db_name self) READ (trace w) (trace (final o)) (succeeded (res o))
       ∧ (succeeded (res o) = false → res o = Raise QueryExecutionError))
  ∧ (∀ schema_text w,
       let o := apply_schema self schema_text w in
       scoped (db_name self) SCHEMA (trace w) (trace (final o)) (succeeded (res o))
       ∧ (res o = Ok tt ∨ res o = Raise QueryExecutionError)).
Proof.
  split; [|split; [|split]].
  - intros A tx_type body w c ob o Hopen. unfold o.
    rewrite transaction_run. fold c ob.
    destruct (driver self (trace w) c); try done; simpl; eauto.
  - intros op_name query w.
    destruct (scoped_query_commit WRITE query w) as (? & _ & ?). done.
  - intros op_name query w o. split; [apply scoped_read|].
    destruct (res o) eqn:E; [done|]. intros _. f_equal.
    by eapply _execute_read_raises.
  - intros schema_text w.
    destruct (scoped_query_commit SCHEMA schema_text w) as (? & _ & ?). done.
Qed.

(** C5.  [_resolve_version] returns the explicit version whenever there is
    one, whatever is cached; the cached active version when there is none;
    and raises [ActiveVersionError] when nothing is cached either.  After a
    [set_active_version v] that returned, [_resolve_version None] returns
    [v]. *)
Theorem resolve_version_spec :
  (∀ explicit w, _resolve_version (Some explicit) w = ret explicit w)
  ∧ (∀ cached w,
       active_version w = Some cached →
       _resolve_version None w = ret cached w)
  ∧ (∀ w,
       active_version w = None →
       _resolve_version None w = raise ActiveVersionError w)
  ∧ (∀ v w,
       let o := set_active_version self v w in
       res o = Ok tt →
       res (_resolve_version None (final o)) = Ok v).
Proof.
  repeat split.
  - intros cached w Hc. unfold _resolve_version. rewrite bind_run. simpl.
    by rewrite Hc.
  - intros w Hc. unfold _resolve_version. rewrite bind_run. simpl.
    by rewrite Hc.
  - intros v w o. unfold o, set_active_version.
    rewrite bind_run, _build_query_run. cbn [res final log app].
    destruct (get_operation _ _ _ _ _) as [query|]; [|done].
    rewrite bind_run.
    destruct (res (_execute_write self "set-active-version" query w)); [|done].
    intros _. rewrite _resolve_version_run. done.
Qed.

(** C6.  [set_active_version version] leaves [version] in the cache when it
    returns, and it returns exactly when the query was built and the write
    succeeded; when it raises, the exception is [QueryExecutionError] or
    [TemplateProcessingError] and the cache is as it was. *)
Theorem set_active_version_cache (version : string) (w : world) :
  let o := set_active_version self version w in
  let built :=
    get_operation (py_format self) (template_driver self) "set-active-version"
      params_none
      (list_to_map [("investigation_name", VStr (INVESTIGATION_NAME self));
                    ("version", VStr version)]) in
  match res o with
  | Ok _ =>
      active_version (final o) = Some version
      ∧ ∃ query, built = Ok query
          ∧ res (_execute_write self "set-active-version" query w) = Ok tt
  | Raise e =>
      active_version (final o) = active_version w
      ∧ (e = QueryExecutionError ∨ e = TemplateProcessingError)
      ∧ ∀ query, built = Ok query →
          res (_execute_write self "set-active-version" query w)
            = Raise QueryExecutionError
  end.
Proof.
  intros o built. unfold o, set_active_version.
  rewrite bind_run, _build_query_run. cbn [res final log app]. fold built.
  destruct built as [query|e] eqn:Eb; [|cbn [res final]; split; [done|split; [by right|done]]].
  rewrite bind_run.
  destruct (_execute_write_quiet "set-active-version" query w) as (_ & Ha & _).
  destruct (_execute_write_res "set-active-version" query w) as [E|E];
    rewrite E; cbn [res final log app store_active_version set_active active_version].
  - split; [done|]. exists query. done.
  - split; [done|]. split; [auto|]. intros q [= <-]. done.
Qed.

(** C7.  With [DEBUG_DB] unset, each of [create_database], [drop_database],
    [investigation_create] and [investigation_delete] raises
    [OperationIsNotAllowed] and leaves the world, the history of engine and
    file-system calls included, as it was. *)
Theorem debug_gate (name : option string) (w : world) :
  DEBUG_DB w = None →
  let refused := {| res := Raise OperationIsNotAllowed; final := w; log := [] |} in
  create_database self name w = refused
  ∧ drop_database self name w = refused
  ∧ investigation_create self w = refused
  ∧ investigation_delete self w = refused.
Proof.
  intros Hd refused.
  assert (Hg : _ensure_debug_allowed w = refused).
  { unfold _ensure_debug_allowed. rewrite bind_run. simpl. by rewrite Hd. }
  unfold create_database, drop_database, investigation_create,
    investigation_delete.
  rewrite !bind_run, Hg. done.
Qed.

(** C3, where the code departs from it.  When the query is built and the
    read returns no document, [get_versions] raises [NameError] for the
    unbound name [resolved_version], not [QueryExecutionError]. *)
Theorem get_versions_no_documents (query : string) (w : world) :
  get_operation (py_format self) (template_driver self) "get-versions"
      params_none
      (list_to_map [("investigation_name", VStr (INVESTIGATION_NAME self))])
    = Ok query →
  res (_execute_read self "get-versions" query w) = Ok [] →
  res (get_versions self w) = Raise (NameError "resolved_version").
Proof.
  intros Hq Hread. unfold get_versions.
  rewrite bind_run, _build_query_run. cbn [res final log app]. rewrite Hq.
  rewrite bind_run, Hread. done.
Qed.

(** The rest of C3 holds: no document or several documents make
    [graph_by_version_get] raise [QueryExecutionError], and several
    documents make [get_versions] raise it. *)
Lemma not_exactly_one_document (version : option string) (w : world) :
  (∀ v query docs,
     res (_resolve_version version w) = Ok v →
     get_operation (py_format self) (template_driver self)
         "graph-by-version-get" params_none
         (list_to_map [("investigation_name", VStr (INVESTIGATION_NAME self));
                       ("version", VStr v)]) = Ok query →
     res (_execute_read self "graph-by-version-get" query w) = Ok docs →
     length docs ≠ 1%nat →
     res (graph_by_version_get self version w) = Raise QueryExecutionError)
  ∧ (∀ query docs,
       get_operation (py_format self) (template_driver self) "get-versions"
           params_none
           (list_to_map [("investigation_name", VStr (INVESTIGATION_NAME self))])
         = Ok query →
       res (_execute_read self "get-versions" query w) = Ok docs →
       (1 < length docs)%nat →
       res (get_versions self w) = Raise QueryExecutionError).
Proof.
  split.
  - intros v query docs Hv Hq Hread Hlen. unfold graph_by_version_get.
    rewrite bind_run. rewrite _resolve_version_run in Hv |- *.
    cbn [lift res final log app] in *. rewrite Hv.
    rewrite bind_run, _build_query_run. cbn [res final log app]. rewrite Hq.
    rewrite bind_run, Hread.
    destruct docs as [|doc [|doc' docs]]; simpl in *; done.
  - intros query docs Hq Hread Hlen. unfold get_versions.
    rewrite bind_run, _build_query_run. cbn [res final log app]. rewrite Hq.
    rewrite bind_run, Hread.
    destruct docs as [|doc [|doc' docs]]; simpl in *; try done; lia.
Qed.

(** ** The diff synchroniser *)

Lemma silent_bind {A B} (m : M A) (k : A → M B) :
  silent m → (∀ a, silent (k a)) → silent (m ≫= k).
Proof.
  intros Hm Hk w. rewrite bind_run. destruct (res (m w)); simpl.
  - by rewrite Hm, Hk.
  - apply Hm.
Qed.

Lemma silent_lift {A} (r : result A) : silent (lift r).
Proof. done. Qed.

Lemma silent_resolve version : silent (_resolve_version version).
Proof. intros w. by rewrite _resolve_version_run. Qed.

Lemma silent_build op_name params : silent (_build_query self op_name params).
Proof. intros w. by rewrite _build_query_run. Qed.

Lemma silent_write op_name query : silent (_execute_write self op_name query).
Proof. intros w. apply _execute_write_quiet. Qed.

Lemma silent_read op_name query : silent (_execute_read self op_name query).
Proof. intros w. apply _execute_read_quiet. Qed.

Lemma silent_graph_by_version_get version :
  silent (graph_by_version_get self version).
Proof.
  unfold graph_by_version_get.
  apply silent_bind; [apply silent_resolve|intros v].
  apply silent_bind; [apply silent_build|intros query].
  apply silent_bind; [apply silent_read|intros docs].
  destruct docs as [|doc docs]; [done|]. by destruct (1 <? _)%nat.
Qed.

(** A write method logs its own invocation and nothing else. *)
Lemma invoked_log (c : client_call) (m : M unit) w :
  silent m → log ((invoked c;; m) w) = [c].
Proof. intros Hm. rewrite bind_run. simpl. by rewrite Hm. Qed.

Local Ltac silent_method :=
  apply invoked_log;
  apply silent_bind; [apply silent_resolve|intros ?];
  apply silent_bind; [apply silent_build|intros ?];
  apply silent_write.

Lemma node_delete_log node_id version w :
  log (node_delete self node_id version w) = [NodeDelete node_id version].
Proof. unfold node_delete. silent_method. Qed.

Lemma node_create_log node_id name pos_x pos_y picture_path description version w :
  log (node_create self node_id name pos_x pos_y picture_path description version w)
    = [NodeCreate node_id name pos_x pos_y picture_path description version].
Proof. unfold node_create. silent_method. Qed.

Lemma node_update_log node_id name pos_x pos_y picture_path description version w :
  log (node_update self node_id name pos_x pos_y picture_path description version w)
    = [NodeUpdate node_id name pos_x pos_y picture_path description version].
Proof. unfold node_update. silent_method. Qed.

Lemma edge_delete_log edge_id version w :
  log (edge_delete self edge_id version w) = [EdgeDelete edge_id version].
Proof. unfold edge_delete. silent_method. Qed.

Lemma edge_create_log edge_id node1_id node2_id description version w :
  log (edge_create self edge_id node1_id node2_id description version w)
    = [EdgeCreate edge_id node1_id node2_id description version].
Proof. unfold edge_create. silent_method. Qed.

Lemma edge_update_log edge_id description version w :
  log (edge_update self edge_id description version w)
    = [EdgeUpdate edge_id description version].
Proof. unfold edge_update. silent_method. Qed.

(** The log of a sequence, and of a loop. *)
Lemma seq_log {A B} (m : M A) (k : A → M B) w :
  log ((m ≫= k) w) =
    log (m w) ++ match res (m w) with
                 | Ok a => log (k a (final (m w)))
                 | Raise _ => []
                 end.
Proof. rewrite bind_run. destruct (res (m w)); simpl; by rewrite ?app_nil_r. Qed.

Lemma for_each_noop {A} (l : list A) (body : A → M unit) w :
  (∀ x, x ∈ l → ∀ w, body x w = ret tt w) →
  for_each l body w = ret tt w.
Proof.
  induction l as [|x l IH]; intros Hbody; [done|]. simpl.
  rewrite bind_run, (Hbody x) by apply list_elem_of_here. simpl.
  rewrite IH; [done|]. intros y Hy. apply Hbody. by apply list_elem_of_further.
Qed.

Lemma for_each_log_Forall {A} (P : client_call → Prop) (l : list A)
    (body : A → M unit) w :
  (∀ x, x ∈ l → ∀ w, Forall P (log (body x w))) →
  Forall P (log (for_each l body w)).
Proof.
  revert w. induction l as [|x l IH]; intros w Hbody; [by constructor|].
  simpl. rewrite seq_log. apply Forall_app. split.
  - apply Hbody, list_elem_of_here.
  - destruct (res (body x w)); [|by constructor].
    apply IH. intros y Hy. apply Hbody. by apply list_elem_of_further.
Qed.

(** [update_graph] is the read, the four indexes, the version, and then
    the six loops. *)
Lemma update_graph_run version nodes edges w :
  let o := graph_by_version_get self version w in
  update_graph self version nodes edges w =
    match res o with
    | Raise e => {| res := Raise e; final := final o; log := [] |}
    | Ok db_graph =>
        match indexes self db_graph nodes edges with
        | Raise e => {| res := Raise e; final := final o; log := [] |}
        | Ok (db_nodes_by_id, new_nodes_by_id, db_edges_by_id, new_edges_by_id) =>
            (resolved_version ← _resolve_version version;
             synchronise self db_nodes_by_id new_nodes_by_id db_edges_by_id
               new_edges_by_id resolved_version) (final o)
        end
    end.
Proof.
  intros o. unfold update_graph. rewrite bind_run. fold o.
  rewrite (silent_graph_by_version_get version w : log o = []).
  destruct (res o) as [db_graph|e]; [|done]. cbn [app].
  unfold indexes.
  rewrite bind_lift_run.
  destruct (doc_getitem db_graph "nodes") as [db_nodes|]; cbn [mbind result_bind rbind];
    [|done].
  rewrite bind_lift_run.
  destruct (doc_getitem db_graph "edges") as [db_edges|]; cbn [mbind result_bind rbind];
    [|done].
  rewrite bind_lift_run.
  destruct (rows_of db_nodes ≫= _) as [a|]; cbn [mbind result_bind rbind]; [|done].
  rewrite bind_lift_run.
  destruct (index_objs self "node_id" nodes []) as [b|];
    cbn [mbind result_bind rbind]; [|done].
  rewrite bind_lift_run.
  destruct (rows_of db_edges ≫= _) as [c|]; cbn [mbind result_bind rbind]; [|done].
  rewrite bind_lift_run.
  destruct (index_objs self "edge_id" edges []) as [d|];
    cbn [mbind result_bind rbind]; [|done].
  apply outcome_eta.
Qed.

(** *** Dictionaries *)

Lemma dict_mem_lookup {V} (d : list (string * V)) k :
  dict_mem d k = true ↔ ∃ v, dict_lookup d k = Some v.
Proof.
  unfold dict_mem. destruct (dict_lookup d k); split; eauto; try done.
  by intros [? ?].
Qed.

Lemma dict_lookup_elem_of {V} (d : list (string * V)) k v :
  dict_lookup d k = Some v → (k, v) ∈ d.
Proof.
  induction d as [|[k' v'] d IH]; [done|]. simpl.
  destruct (String.eqb_spec k' k) as [->|Hne].
  - intros [= ->]. apply list_elem_of_here.
  - intros H. apply list_elem_of_further. auto.
Qed.

Lemma elem_of_dict_mem {V} (d : list (string * V)) k v :
  (k, v) ∈ d → dict_mem d k = true.
Proof.
  intros Hin. apply dict_mem_lookup.
  induction d as [|[k' v'] d IH]; [by apply elem_of_nil in Hin|]. simpl.
  destruct (String.eqb_spec k' k) as [->|Hne]; [eauto|].
  apply elem_of_cons in Hin as [[= -> ->]|Hin]; [done|auto].
Qed.

Lemma elem_of_keys_dict_mem {V} (d : list (string * V)) k :
  k ∈ d.*1 → dict_mem d k = true.
Proof.
  intros Hin. apply list_elem_of_fmap in Hin as ([k' v] & -> & Hin).
  by eapply elem_of_dict_mem.
Qed.

(** *** The read leaves the cache alone, and its version resolves again *)

Lemma graph_by_version_get_active version w :
  active_version (final (graph_by_version_get self version w)) = active_version w.
Proof.
  unfold graph_by_version_get. rewrite bind_run, _resolve_version_run.
  cbn [lift res final log app].
  match goal with |- context [match ?r with Ok _ => _ | Raise _ => _ end] =>
    destruct r as [v|] end; [|done].
  rewrite bind_run, _build_query_run. cbn [res final log app].
  destruct (get_operation _ _ _ _ _) as [query|]; [|done].
  rewrite bind_run.
  destruct (_execute_read_quiet "graph-by-version-get" query w) as (_ & Hact & _).
  destruct (res (_execute_read self _ query w)) as [docs|]; [|done].
  destruct docs as [|doc docs]; [done|].
  cbn [res final]. by destruct (1 <? _)%nat.
Qed.

Lemma graph_by_version_get_resolved version w db_graph :
  let o := graph_by_version_get self version w in
  res o = Ok db_graph →
  ∃ resolved_version,
    _resolve_version version (final o) = ret resolved_version (final o).
Proof.
  intros o Hres. rewrite _resolve_version_run.
  unfold o at 1. rewrite graph_by_version_get_active.
  revert Hres. unfold o, graph_by_version_get.
  rewrite bind_run, _resolve_version_run. cbn [lift res final log app].
  match goal with |- context [match ?r with Ok _ => _ | Raise _ => _ end] =>
    destruct r as [v|] end; [|done].
  intros _. by exists v.
Qed.

(** *** Entities equal in the compared fields cause no call *)

Lemma float_fields_equal_inv a b :
  float_fields_equal a b = true → ∃ x y, a = Ok x ∧ b = Ok y ∧ SFeqb x y = true.
Proof. destruct a, b; try done. eauto. Qed.

Lemma update_changed_node_equal new_nodes_by_id rv node_id_str db_node node_obj w :
  dict_lookup new_nodes_by_id node_id_str = Some node_obj →
  node_fields_equal self db_node node_obj = true →
  update_changed_node self new_nodes_by_id rv (node_id_str, db_node) w = ret tt w.
Proof.
  intros Hl Heq. unfold update_changed_node. rewrite Hl.
  unfold node_fields_equal in Heq.
  destruct (get_field node_obj "name") as [name|]; [|done].
  destruct (get_field node_obj "picture_path") as [picture|]; [|done].
  destruct (get_field node_obj "description") as [description|]; [|done].
  apply andb_prop in Heq as [Heq Hdesc]. apply andb_prop in Heq as [Heq Hpic].
  apply andb_prop in Heq as [Heq Hy]. apply andb_prop in Heq as [Hname Hx].
  apply float_fields_equal_inv in Hx as (x & x' & Hdx & Hnx & Hx).
  apply float_fields_equal_inv in Hy as (y & y' & Hdy & Hny & Hy).
  rewrite bind_lift_run. rewrite Hnx, bind_lift_run. rewrite Hny, bind_lift_run.
  rewrite !bind_lift_run.
  unfold need_update, py_ne. rewrite Hname, Hdx. simpl. rewrite Hx, Hdy. simpl.
  rewrite Hy, Hpic, Hdesc. done.
Qed.

Lemma update_changed_edge_equal new_edges_by_id rv edge_id_str db_edge edge_obj w :
  dict_lookup new_edges_by_id edge_id_str = Some edge_obj →
  edge_fields_equal self db_edge edge_obj = true →
  update_changed_edge self new_edges_by_id rv (edge_id_str, db_edge) w = ret tt w.
Proof.
  intros Hl Heq. unfold update_changed_edge. rewrite Hl.
  unfold edge_fields_equal in Heq.
  destruct (get_field edge_obj "node1") as [node1|]; [|done].
  destruct (get_field edge_obj "node2") as [node2|]; [|done].
  destruct (get_field edge_obj "description") as [description|]; [|done].
  apply andb_prop in Heq as [Heq Hdesc]. apply andb_prop in Heq as [H1 H2].
  rewrite !bind_lift_run. simpl. rewrite !bind_lift_run.
  unfold py_ne. rewrite H1, H2, Hdesc. done.
Qed.

Lemma same_entities_inv equal
    (db_by_id : list (string * pydict)) (new_by_id : list (string * pyobj)) :
  same_entities equal db_by_id new_by_id = true →
  (∀ k d, (k, d) ∈ db_by_id →
     ∃ obj, dict_lookup new_by_id k = Some obj ∧ equal d obj = true)
  ∧ (∀ k obj, (k, obj) ∈ new_by_id → dict_mem db_by_id k = true).
Proof.
  unfold same_entities. intros [H1 H2]%andb_prop.
  rewrite forallb_forall in H1. rewrite forallb_forall in H2. split.
  - intros k d Hin. apply list_elem_of_In, H1 in Hin. simpl in Hin.
    destruct (dict_lookup new_by_id k); [eauto|done].
  - intros k obj Hin. by apply list_elem_of_In, H2 in Hin.
Qed.


(** *** What each loop body invokes *)

Lemma lift_bind_log {A B} (r : result A) (k : A → M B) w :
  log ((lift r ≫= k) w) = match r with Ok a => log (k a w) | Raise _ => [] end.
Proof. rewrite bind_lift_run. by destruct r. Qed.

Lemma delete_absent_node_log new_nodes_by_id rv k w :
  log (delete_absent_node self new_nodes_by_id rv k w) =
    if dict_mem new_nodes_by_id k then [] else [NodeDelete (VStr k) (Some rv)].
Proof.
  unfold delete_absent_node. destruct (dict_mem _ k); cbn [negb]; [done|].
  apply node_delete_log.
Qed.

Lemma delete_absent_edge_log new_edges_by_id rv k w :
  log (delete_absent_edge self new_edges_by_id rv k w) =
    if dict_mem new_edges_by_id k then [] else [EdgeDelete (VStr k) (Some rv)].
Proof.
  unfold delete_absent_edge. destruct (dict_mem _ k); cbn [negb]; [done|].
  apply edge_delete_log.
Qed.

Lemma create_new_node_log db_nodes_by_id rv k obj w :
  let l := log (create_new_node self db_nodes_by_id rv (k, obj) w) in
  l = []
  ∨ dict_mem db_nodes_by_id k = false
    ∧ ∃ name pos_x pos_y picture_path description,
        l = [NodeCreate (VStr k) name pos_x pos_y picture_path description (Some rv)].
Proof.
  unfold create_new_node. destruct (dict_mem _ k) eqn:Hm; cbn [negb]; [by left|].
  repeat (rewrite lift_bind_log;
          match goal with |- context [match ?r with Ok _ => _ | Raise _ => _ end] =>
            destruct r; [|by left] end).
  right. split; [done|]. rewrite node_create_log. eauto 10.
Qed.

Lemma create_new_edge_log db_edges_by_id rv k obj w :
  let l := log (create_new_edge self db_edges_by_id rv (k, obj) w) in
  l = []
  ∨ dict_mem db_edges_by_id k = false
    ∧ ∃ node1_id node2_id description,
        l = [EdgeCreate (VStr k) node1_id node2_id description (Some rv)].
Proof.
  unfold create_new_edge. destruct (dict_mem _ k) eqn:Hm; cbn [negb]; [by left|].
  repeat (rewrite lift_bind_log;
          match goal with |- context [match ?r with Ok _ => _ | Raise _ => _ end] =>
            destruct r; [|by left] end).
  right. split; [done|]. rewrite edge_create_log. eauto 10.
Qed.

Lemma update_changed_node_log new_nodes_by_id rv k db_node w :
  let l := log (update_changed_node self new_nodes_by_id rv (k, db_node) w) in
  l = []
  ∨ ∃ name pos_x pos_y picture_path description,
      l = [NodeUpdate (VStr k) name pos_x pos_y picture_path description (Some rv)].
Proof.
  unfold update_changed_node. destruct (dict_lookup _ k); [|by left].
  repeat (rewrite lift_bind_log;
          match goal with |- context [match ?r with Ok _ => _ | Raise _ => _ end] =>
            destruct r; [|by left] end).
  match goal with |- context [if ?b then _ else _] => destruct b end;
    [|by left].
  right. rewrite node_update_log. eauto 10.
Qed.

Lemma update_changed_edge_log new_edges_by_id rv k db_edge w :
  let o := update_changed_edge self new_edges_by_id rv (k, db_edge) w in
  log o = []
  ∨ (∃ description, log o = [EdgeUpdate (VStr k) description (Some rv)])
  ∨ (∃ node1_id node2_id description,
       log o = [EdgeDelete (VStr k) (Some rv);
                EdgeCreate (VStr k) node1_id node2_id description (Some rv)])
  ∨ (log o = [EdgeDelete (VStr k) (Some rv)] ∧ succeeded (res o) = false).
Proof.
  unfold update_changed_edge. destruct (dict_lookup _ k) as [obj|]; [|by left].
  rewrite !bind_lift_run.
  destruct (get_field obj "node1") as [n1|];
    cbn [fmap result_fmap rbind]; [|by left].
  rewrite !bind_lift_run.
  destruct (get_field obj "node2") as [n2|];
    cbn [fmap result_fmap rbind]; [|by left].
  rewrite !bind_lift_run.
  destruct (get_field obj "description") as [ds|];
    cbn [fmap result_fmap rbind]; [|by left].
  match goal with |- context [if ?b then _ else _] => destruct b end.
  - rewrite bind_run, edge_delete_log.
    destruct (res (edge_delete self _ _ w)); cbn [res log app succeeded].
    + right. right. left. rewrite edge_create_log. eauto.
    + right. right. right. done.
  - match goal with |- context [if ?b then _ else _] => destruct b end;
      [|by left].
    right. left. rewrite edge_update_log. eauto.
Qed.

(** *** The order of the calls *)

Lemma seq_phases {A B} (P : client_call → Prop)
    (Q : list client_call → Prop) (m : M A) (k : A → M B) w :
  Forall P (log (m w)) → Q [] → (∀ a w', Q (log (k a w'))) →
  ∃ l1 l2, log ((m ≫= k) w) = l1 ++ l2 ∧ Forall P l1 ∧ Q l2.
Proof.
  intros HP Hnil HQ. rewrite seq_log. exists (log (m w)).
  destruct (res (m w)); eauto.
Qed.

Lemma for_each_recreate_or_update new_edges_by_id rv l w :
  recreate_or_update
    (log (for_each l (update_changed_edge self new_edges_by_id rv) w)).
Proof.
  revert w. induction l as [|[k db_edge] l IH]; intros w; [constructor|].
  cbn [for_each]. rewrite seq_log.
  set (o := update_changed_edge self new_edges_by_id rv (k, db_edge) w).
  assert (recreate_or_update
            match res o with
            | Ok _ => log (for_each l (update_changed_edge self new_edges_by_id rv)
                             (final o))
            | Raise _ => []
            end) as Hrest.
  { destruct (res o); [apply IH|constructor]. }
  destruct (update_changed_edge_log new_edges_by_id rv k db_edge w)
    as [E|[[ds E]|[(n1 & n2 & ds & E)|[E Hfail]]]]; fold o in E; rewrite E; cbn [app].
  - done.
  - by constructor.
  - by constructor.
  - fold o in Hfail. destruct (res o); [done|]. constructor.
Qed.

Lemma synchronise_phases dbn newn dbe newe rv w :
  ∃ nd nc nu ed ec eu,
    log (synchronise self dbn newn dbe newe rv w)
      = nd ++ nc ++ nu ++ ed ++ ec ++ eu
    ∧ Forall (λ c, phase c = 0%nat) nd
    ∧ Forall (λ c, phase c = 1%nat) nc
    ∧ Forall (λ c, phase c = 2%nat) nu
    ∧ Forall (λ c, phase c = 3%nat) ed
    ∧ Forall (λ c, phase c = 4%nat) ec
    ∧ recreate_or_update eu.
Proof.
  unfold synchronise.
  pose (Q5 := recreate_or_update).
  pose (Q4 l := ∃ ec eu, l = ec ++ eu ∧ Forall (λ c, phase c = 4%nat) ec ∧ Q5 eu).
  pose (Q3 l := ∃ ed r, l = ed ++ r ∧ Forall (λ c, phase c = 3%nat) ed ∧ Q4 r).
  pose (Q2 l := ∃ nu r, l = nu ++ r ∧ Forall (λ c, phase c = 2%nat) nu ∧ Q3 r).
  pose (Q1 l := ∃ nc r, l = nc ++ r ∧ Forall (λ c, phase c = 1%nat) nc ∧ Q2 r).
  assert (Q5 []) as H5 by constructor.
  assert (Q4 []) as H4 by (exists [], []; by repeat split).
  assert (Q3 []) as H3 by (exists [], []; by repeat split).
  assert (Q2 []) as H2 by (exists [], []; by repeat split).
  assert (Q1 []) as H1 by (exists [], []; by repeat split).
  assert (∀ w, Forall (λ c, phase c = 0%nat)
                 (log (for_each dbn.*1 (delete_absent_node self newn rv) w))) as L1.
  { intros w'. apply for_each_log_Forall. intros k _ w''.
    rewrite delete_absent_node_log. destruct (dict_mem newn k); by repeat constructor. }
  assert (∀ w, Forall (λ c, phase c = 1%nat)
                 (log (for_each newn (create_new_node self dbn rv) w))) as L2.
  { intros w'. apply for_each_log_Forall. intros [k obj] _ w''.
    destruct (create_new_node_log dbn rv k obj w'')
      as [->|(_ & ? & ? & ? & ? & ? & ->)]; by repeat constructor. }
  assert (∀ w, Forall (λ c, phase c = 2%nat)
                 (log (for_each dbn (update_changed_node self newn rv) w))) as L3.
  { intros w'. apply for_each_log_Forall. intros [k d] _ w''.
    destruct (update_changed_node_log newn rv k d w'')
      as [->|(? & ? & ? & ? & ? & ->)]; by repeat constructor. }
  assert (∀ w, Forall (λ c, phase c = 3%nat)
                 (log (for_each dbe.*1 (delete_absent_edge self newe rv) w))) as L4.
  { intros w'. apply for_each_log_Forall. intros k _ w''.
    rewrite delete_absent_edge_log. destruct (dict_mem newe k); by repeat constructor. }
  assert (∀ w, Forall (λ c, phase c = 4%nat)
                 (log (for_each newe (create_new_edge self dbe rv) w))) as L5.
  { intros w'. apply for_each_log_Forall. intros [k obj] _ w''.
    destruct (create_new_edge_log dbe rv k obj w'')
      as [->|(_ & ? & ? & ? & ->)]; by repeat constructor. }
  assert (∀ w, Q4 (log ((for_each newe (create_new_edge self dbe rv);;
                         for_each dbe (update_changed_edge self newe rv)) w))) as S4.
  { intros w'. apply seq_phases; [apply L5|done|].
    intros _ w''. apply for_each_recreate_or_update. }
  assert (∀ w, Q3 (log ((for_each dbe.*1 (delete_absent_edge self newe rv);;
                         for_each newe (create_new_edge self dbe rv);;
                         for_each dbe (update_changed_edge self newe rv)) w))) as S3.
  { intros w'. apply seq_phases; [apply L4|done|]. intros _ w''. apply S4. }
  assert (∀ w, Q2 (log ((for_each dbn (update_changed_node self newn rv);;
                         for_each dbe.*1 (delete_absent_edge self newe rv);;
                         for_each newe (create_new_edge self dbe rv);;
                         for_each dbe (update_changed_edge self newe rv)) w))) as S2.
  { intros w'. apply seq_phases; [apply L3|done|]. intros _ w''. apply S3. }
  assert (∀ w, Q1 (log ((for_each newn (create_new_node self dbn rv);;
                         for_each dbn (update_changed_node self newn rv);;
                         for_each dbe.*1 (delete_absent_edge self newe rv);;
                         for_each newe (create_new_edge self dbe rv);;
                         for_each dbe (update_changed_edge self newe rv)) w))) as S1.
  { intros w'. apply seq_phases; [apply L2|done|]. intros _ w''. apply S2. }
  destruct (seq_phases (λ c, phase c = 0%nat) Q1
              (for_each dbn.*1 (delete_absent_node self newn rv))
              (λ _, for_each newn (create_new_node self dbn rv);;
                    for_each dbn (update_changed_node self newn rv);;
                    for_each dbe.*1 (delete_absent_edge self newe rv);;
                    for_each newe (create_new_edge self dbe rv);;
                    for_each dbe (update_changed_edge self newe rv)) w)
    as (nd & r1 & E & Hnd & (nc & r2 & -> & Hnc & (nu & r3 & -> & Hnu
         & (ed & r4 & -> & Hed & (ec & eu & -> & Hec & Heu))))); [apply L1|done|..].
  { intros _ w'. apply S1. }
  exists nd, nc, nu, ed, ec, eu. by repeat split.
Qed.

(** The log of [update_graph] is empty, or that of its six loops. *)
Lemma update_graph_log version nodes edges w :
  log (update_graph self version nodes edges w) = []
  ∨ ∃ db_graph dbn newn dbe newe rv w',
      res (graph_by_version_get self version w) = Ok db_graph
      ∧ indexes self db_graph nodes edges = Ok (dbn, newn, dbe, newe)
      ∧ log (update_graph self version nodes edges w)
          = log (synchronise self dbn newn dbe newe rv w').
Proof.
  rewrite update_graph_run.
  destruct (res (graph_by_version_get self version w)) as [db_graph|] eqn:Eg;
    [|by left].
  destruct (indexes self db_graph nodes edges) as [[[[dbn newn] dbe] newe]|] eqn:Ei;
    [|by left].
  rewrite bind_run, _resolve_version_run. cbn [lift res final log app].
  match goal with |- context [match ?r with Ok _ => _ | Raise _ => _ end] =>
    destruct r as [rv|] end; [|by left].
  right. eauto 10.
Qed.

(** C2, as the code has it.  The write methods one [update_graph] invokes
    come in this order: node deletions, node creations, node updates, the
    deletions of the edges absent from the desired state, the creations of
    the edges absent from the persisted state, and then, for the edges
    present in both, updates of the description and deletions followed at
    once by the creation under the same id. *)
Theorem update_graph_phases
    (version : option string) (nodes edges : list pyobj) (w : world) :
  ∃ nd nc nu ed ec eu,
    log (update_graph self version nodes edges w)
      = nd ++ nc ++ nu ++ ed ++ ec ++ eu
    ∧ Forall (λ c, phase c = 0%nat) nd
    ∧ Forall (λ c, phase c = 1%nat) nc
    ∧ Forall (λ c, phase c = 2%nat) nu
    ∧ Forall (λ c, phase c = 3%nat) ed
    ∧ Forall (λ c, phase c = 4%nat) ec
    ∧ recreate_or_update eu.
Proof.
  destruct (update_graph_log version nodes edges w)
    as [->|(db_graph & dbn & newn & dbe & newe & rv & w' & _ & _ & ->)].
  - exists [], [], [], [], [], []. repeat split; constructor.
  - apply synchronise_phases.
Qed.


(** *** Indexes have one entry per id *)

Lemma dict_set_keys {V} (d : list (string * V)) k v :
  (dict_set d k v).*1 = if dict_mem d k then d.*1 else d.*1 ++ [k].
Proof.
  unfold dict_mem. induction d as [|[k' v'] d IH]; [done|].
  cbn [dict_set dict_lookup]. destruct (String.eqb k' k); [done|].
  cbn [fmap list_fmap fst]. rewrite IH.
  by destruct (dict_lookup d k).
Qed.

Lemma dict_mem_keys {V} (d : list (string * V)) k :
  dict_mem d k = false → k ∉ d.*1.
Proof.
  intros Hm Hin. apply elem_of_keys_dict_mem in Hin. congruence.
Qed.

Lemma dict_set_NoDup {V} (d : list (string * V)) k v :
  NoDup d.*1 → NoDup (dict_set d k v).*1.
Proof.
  intros Hd. rewrite dict_set_keys. destruct (dict_mem d k) eqn:Hm; [done|].
  apply NoDup_app. split; [done|]. split.
  - intros x Hx Hk. apply list_elem_of_singleton in Hk as ->.
    by apply dict_mem_keys in Hm.
  - apply NoDup_singleton.
Qed.

Lemma index_rows_NoDup key rows acc r :
  NoDup acc.*1 → index_rows self key rows acc = Ok r → NoDup r.*1.
Proof.
  revert acc. induction rows as [|n rows IH]; intros acc Hacc.
  - by intros [= <-].
  - cbn [index_rows]. destruct (dict_lookup n key); [|done].
    apply IH. by apply dict_set_NoDup.
Qed.

Lemma NoDup_dict_lookup {V} (d : list (string * V)) k v :
  NoDup d.*1 → (k, v) ∈ d → dict_lookup d k = Some v.
Proof.
  induction d as [|[k' v'] d IH]; intros Hd Hin;
    [by apply elem_of_nil in Hin|].
  cbn [fmap list_fmap fst] in Hd. apply NoDup_cons in Hd as [Hk' Hd].
  cbn [dict_lookup]. apply elem_of_cons in Hin as [[= -> ->]|Hin].
  - by rewrite String.eqb_refl.
  - destruct (String.eqb_spec k' k) as [->|Hne]; [|by apply IH].
    exfalso. apply Hk'. apply list_elem_of_fmap. by exists (k, v).
Qed.

Lemma indexes_NoDup db_graph nodes edges dbn newn dbe newe :
  indexes self db_graph nodes edges = Ok (dbn, newn, dbe, newe) →
  NoDup dbn.*1 ∧ NoDup dbe.*1.
Proof.
  unfold indexes.
  destruct (doc_getitem db_graph "nodes") as [db_nodes|];
    cbn [mbind result_bind rbind]; [|done].
  destruct (doc_getitem db_graph "edges") as [db_edges|];
    cbn [mbind result_bind rbind]; [|done].
  destruct (rows_of db_nodes) as [rn|]; cbn [mbind result_bind rbind]; [|done].
  destruct (index_rows self "node_id" rn []) as [a|] eqn:Ea;
    cbn [mbind result_bind rbind]; [|done].
  destruct (index_objs self "node_id" nodes []) as [b|];
    cbn [mbind result_bind rbind]; [|done].
  destruct (rows_of db_edges) as [re|]; cbn [mbind result_bind rbind]; [|done].
  destruct (index_rows self "edge_id" re []) as [c|] eqn:Ec;
    cbn [mbind result_bind rbind]; [|done].
  destruct (index_objs self "edge_id" edges []) as [d|];
    cbn [mbind result_bind rbind]; [|done].
  intros [= <- <- <- <-]. split.
  - eapply index_rows_NoDup; [|exact Ea]. constructor.
  - eapply index_rows_NoDup; [|exact Ec]. constructor.
Qed.

(** *** Calls are for entities that are new, gone or changed *)

Lemma seq_Forall {A B} (P : client_call → Prop) (m : M A) (k : A → M B) w :
  Forall P (log (m w)) → (∀ a w', Forall P (log (k a w'))) →
  Forall P (log ((m ≫= k) w)).
Proof.
  intros Hm Hk. rewrite seq_log. apply Forall_app. split; [done|].
  destruct (res (m w)); [apply Hk|constructor].
Qed.

Lemma synchronise_Forall (P : client_call → Prop) dbn newn dbe newe rv :
  (∀ w, Forall P (log (for_each dbn.*1 (delete_absent_node self newn rv) w))) →
  (∀ w, Forall P (log (for_each newn (create_new_node self dbn rv) w))) →
  (∀ w, Forall P (log (for_each dbn (update_changed_node self newn rv) w))) →
  (∀ w, Forall P (log (for_each dbe.*1 (delete_absent_edge self newe rv) w))) →
  (∀ w, Forall P (log (for_each newe (create_new_edge self dbe rv) w))) →
  (∀ w, Forall P (log (for_each dbe (update_changed_edge self newe rv) w))) →
  ∀ w, Forall P (log (synchronise self dbn newn dbe newe rv w)).
Proof.
  intros L1 L2 L3 L4 L5 L6 w. unfold synchronise.
  apply seq_Forall; [apply L1|intros _ w1].
  apply seq_Forall; [apply L2|intros _ w2].
  apply seq_Forall; [apply L3|intros _ w3].
  apply seq_Forall; [apply L4|intros _ w4].
  apply seq_Forall; [apply L5|intros _ w5].
  apply L6.
Qed.

(** The loops over nodes invoke no edge method, and conversely. *)
Lemma node_loops_off_edge id dbn newn rv :
  (∀ w, Forall (λ c, ¬ on_edge id c)
          (log (for_each dbn.*1 (delete_absent_node self newn rv) w)))
  ∧ (∀ w, Forall (λ c, ¬ on_edge id c)
            (log (for_each newn (create_new_node self dbn rv) w)))
  ∧ (∀ w, Forall (λ c, ¬ on_edge id c)
            (log (for_each dbn (update_changed_node self newn rv) w))).
Proof.
  split; [|split]; intros w; apply for_each_log_Forall.
  - intros k _ w'. rewrite delete_absent_node_log.
    destruct (dict_mem newn k); repeat constructor. by intros [].
  - intros [k obj] _ w'.
    destruct (create_new_node_log dbn rv k obj w')
      as [->|(_ & ? & ? & ? & ? & ? & ->)]; repeat constructor. by intros [].
  - intros [k d] _ w'.
    destruct (update_changed_node_log newn rv k d w')
      as [->|(? & ? & ? & ? & ? & ->)]; repeat constructor. by intros [].
Qed.

Lemma edge_loops_off_node id dbe newe rv :
  (∀ w, Forall (λ c, ¬ on_node id c)
          (log (for_each dbe.*1 (delete_absent_edge self newe rv) w)))
  ∧ (∀ w, Forall (λ c, ¬ on_node id c)
            (log (for_each newe (create_new_edge self dbe rv) w)))
  ∧ (∀ w, Forall (λ c, ¬ on_node id c)
            (log (for_each dbe (update_changed_edge self newe rv) w))).
Proof.
  split; [|split]; intros w; apply for_each_log_Forall.
  - intros k _ w'. rewrite delete_absent_edge_log.
    destruct (dict_mem newe k); repeat constructor. by intros [].
  - intros [k obj] _ w'.
    destruct (create_new_edge_log dbe rv k obj w')
      as [->|(_ & ? & ? & ? & ->)]; repeat constructor. by intros [].
  - intros [k d] _ w'.
    destruct (update_changed_edge_log newe rv k d w')
      as [->|[[? ->]|[(? & ? & ? & ->)|[-> _]]]]; repeat constructor;
      by intros [].
Qed.

(** A node present on both sides with equal compared fields is the
    subject of no call. *)
Lemma synchronise_untouched_node dbn newn dbe newe rv id d obj w :
  NoDup dbn.*1 →
  dict_lookup dbn id = Some d →
  dict_lookup newn id = Some obj →
  node_fields_equal self d obj = true →
  Forall (λ c, ¬ on_node id c) (log (synchronise self dbn newn dbe newe rv w)).
Proof.
  intros Hnd Hd Hobj Heq.
  destruct (edge_loops_off_node id dbe newe rv) as (L4 & L5 & L6).
  apply synchronise_Forall; try done; intros w'; apply for_each_log_Forall.
  - intros k _ w''. rewrite delete_absent_node_log.
    destruct (dict_mem newn k) eqn:Hm; repeat constructor.
    intros [= ->]. unfold dict_mem in Hm. by rewrite Hobj in Hm.
  - intros [k o] _ w''.
    destruct (create_new_node_log dbn rv k o w'')
      as [->|(Hm & ? & ? & ? & ? & ? & ->)]; repeat constructor.
    intros [= ->]. unfold dict_mem in Hm. by rewrite Hd in Hm.
  - intros [k d'] Hin w''.
    destruct (decide (k = id)) as [->|Hne].
    + apply (NoDup_dict_lookup _ _ _ Hnd) in Hin.
      assert (d' = d) as -> by congruence.
      rewrite (update_changed_node_equal newn rv id d obj w'' Hobj Heq).
      constructor.
    + destruct (update_changed_node_log newn rv k d' w'')
        as [->|(? & ? & ? & ? & ? & ->)]; repeat constructor.
      by intros [= ->].
Qed.

(** An edge present on both sides with equal compared fields is the
    subject of no call. *)
Lemma synchronise_untouched_edge dbn newn dbe newe rv id d obj w :
  NoDup dbe.*1 →
  dict_lookup dbe id = Some d →
  dict_lookup newe id = Some obj →
  edge_fields_equal self d obj = true →
  Forall (λ c, ¬ on_edge id c) (log (synchronise self dbn newn dbe newe rv w)).
Proof.
  intros Hnd Hd Hobj Heq.
  destruct (node_loops_off_edge id dbn newn rv) as (L1 & L2 & L3).
  apply synchronise_Forall; try done; intros w'; apply for_each_log_Forall.
  - intros k _ w''. rewrite delete_absent_edge_log.
    destruct (dict_mem newe k) eqn:Hm; repeat constructor.
    intros [= ->]. unfold dict_mem in Hm. by rewrite Hobj in Hm.
  - intros [k o] _ w''.
    destruct (create_new_edge_log dbe rv k o w'')
      as [->|(Hm & ? & ? & ? & ->)]; repeat constructor.
    intros [= ->]. unfold dict_mem in Hm. by rewrite Hd in Hm.
  - intros [k d'] Hin w''.
    destruct (decide (k = id)) as [->|Hne].
    + apply (NoDup_dict_lookup _ _ _ Hnd) in Hin.
      assert (d' = d) as -> by congruence.
      rewrite (update_changed_edge_equal newe rv id d obj w'' Hobj Heq).
      constructor.
    + destruct (update_changed_edge_log newe rv k d' w'')
        as [->|[[? ->]|[(? & ? & ? & ->)|[-> _]]]]; repeat constructor;
        by intros [= ->].
Qed.

(** C1.  When the document read for the version holds a state equal to the
    desired one under the comparisons of the code (the same node ids and
    edge ids, and under each id compared fields that are equal: name,
    picture_path and description by [==], the positions as floats by
    value, the endpoints in string form), [update_graph] returns having
    invoked no write method and having made no engine call after the read.
    In every run, a node or an edge that is present on both sides with
    equal compared fields is the subject of no call.  Equality of floats by
    value leaves a NaN position equal to nothing, itself included: a
    persisted state that holds the desired data with a NaN position is not
    equal to it in this sense, and the guarantee does not reach it. *)
Theorem update_graph_idempotent
    (version : option string) (nodes edges : list pyobj) (w : world)
    (db_graph : document) :
  let o := graph_by_version_get self version w in
  res o = Ok db_graph →
  (persisted_equals_desired self db_graph nodes edges = true →
   update_graph self version nodes edges w
     = {| res := Ok tt; final := final o; log := [] |})
  ∧ ∀ dbn newn dbe newe id db_entity obj,
      indexes self db_graph nodes edges = Ok (dbn, newn, dbe, newe) →
      (dict_lookup dbn id = Some db_entity →
       dict_lookup newn id = Some obj →
       node_fields_equal self db_entity obj = true →
       Forall (λ c, ¬ on_node id c)
         (log (update_graph self version nodes edges w)))
      ∧ (dict_lookup dbe id = Some db_entity →
         dict_lookup newe id = Some obj →
         edge_fields_equal self db_entity obj = true →
         Forall (λ c, ¬ on_edge id c)
           (log (update_graph self version nodes edges w))).
Proof.
  intros o Hres. split.
  - intros Hsame. rewrite update_graph_run. fold o. rewrite Hres.
    unfold persisted_equals_desired in Hsame.
    destruct (indexes self db_graph nodes edges) as [[[[a b] c] d]|]; [|done].
    apply andb_prop in Hsame as [Hn He].
    apply same_entities_inv in Hn as [Hn1 Hn2].
    apply same_entities_inv in He as [He1 He2].
    destruct (graph_by_version_get_resolved version w db_graph Hres) as [rv Hrv].
    fold o in Hrv. rewrite bind_run, Hrv. cbn [ret res final log app].
    unfold synchronise.
    rewrite bind_run, for_each_noop; last first.
    { intros k Hk w'. unfold delete_absent_node.
      apply list_elem_of_fmap in Hk as ([k' v] & -> & Hin).
      destruct (Hn1 _ _ Hin) as (obj & Hl & _).
      unfold dict_mem. cbn [fst]. by rewrite Hl. }
    cbn [ret res final log app]. rewrite bind_run, for_each_noop; last first.
    { intros [k obj] Hk w'. unfold create_new_node. by rewrite (Hn2 _ _ Hk). }
    cbn [ret res final log app]. rewrite bind_run, for_each_noop; last first.
    { intros [k v] Hk w'. destruct (Hn1 _ _ Hk) as (obj & Hl & Heq).
      by apply update_changed_node_equal with obj. }
    cbn [ret res final log app]. rewrite bind_run, for_each_noop; last first.
    { intros k Hk w'. unfold delete_absent_edge.
      apply list_elem_of_fmap in Hk as ([k' v] & -> & Hin).
      destruct (He1 _ _ Hin) as (obj & Hl & _).
      unfold dict_mem. cbn [fst]. by rewrite Hl. }
    cbn [ret res final log app]. rewrite bind_run, for_each_noop; last first.
    { intros [k obj] Hk w'. unfold create_new_edge. by rewrite (He2 _ _ Hk). }
    cbn [ret res final log app]. rewrite for_each_noop; [done|].
    intros [k v] Hk w'. destruct (He1 _ _ Hk) as (obj & Hl & Heq).
    by apply update_changed_edge_equal with obj.
  - intros dbn newn dbe newe id d obj Hi.
    destruct (indexes_NoDup _ _ _ _ _ _ _ Hi) as [Hnn Hne].
    rewrite update_graph_run. fold o. rewrite Hres, Hi.
    rewrite seq_log, (silent_resolve version). cbn [app].
    destruct (res (_resolve_version version _)) as [rv|];
      [|split; intros; constructor].
    split; intros Hd Hobj Heq.
    + by apply synchronise_untouched_node with d obj.
    + by apply synchronise_untouched_edge with d obj.
Qed.

(** *** node_type plays no part *)

Lemma same_index_lookup l l' k :
  same_index l l' →
  match dict_lookup l k, dict_lookup l' k with
  | Some n, Some n' => same_but_node_type n n'
  | None, None => True
  | _, _ => False
  end.
Proof.
  induction 1 as [|[k1 n] [k2 n'] l l' [Hk Hn] _ IH]; [done|].
  cbn [fst snd] in Hk, Hn. subst k2. cbn [dict_lookup].
  by destruct (String.eqb k1 k).
Qed.

Lemma same_index_mem l l' k : same_index l l' → dict_mem l k = dict_mem l' k.
Proof.
  intros H. apply (same_index_lookup _ _ k) in H. unfold dict_mem.
  by destruct (dict_lookup l k), (dict_lookup l' k).
Qed.

Lemma same_index_set l l' k n n' :
  same_index l l' → same_but_node_type n n' →
  same_index (dict_set l k n) (dict_set l' k n').
Proof.
  intros H Hn. induction H as [|[k1 m] [k2 m'] l l' [Hk Hm] Hl IH].
  - by repeat constructor.
  - cbn [fst snd] in Hk, Hm. subst k2. cbn [dict_set].
    destruct (String.eqb k1 k); (constructor; [done|]); [exact Hl|exact IH].
Qed.

Lemma index_objs_same key nodes nodes' acc acc' :
  key ≠ "node_type" →
  Forall2 same_but_node_type nodes nodes' → same_index acc acc' →
  match index_objs self key nodes acc, index_objs self key nodes' acc' with
  | Ok l, Ok l' => same_index l l'
  | Raise e, Raise e' => e = e'
  | _, _ => False
  end.
Proof.
  intros Hkey H. revert acc acc'.
  induction H as [|n n' nodes nodes' Hn _ IH]; intros acc acc' Hacc; [done|].
  cbn [index_objs]. rewrite <- (Hn key Hkey).
  destruct (get_field n key) as [v|]; cbn [mbind result_bind rbind]; [|done].
  apply IH. by apply same_index_set.
Qed.

(** Each loop body reads the desired node through the compared fields and
    the id only. *)
Lemma create_new_node_same dbn rv k n n' w :
  same_but_node_type n n' →
  create_new_node self dbn rv (k, n) w = create_new_node self dbn rv (k, n') w.
Proof.
  intros Hn. unfold create_new_node.
  by rewrite <- !Hn.
Qed.

Lemma update_changed_node_same newn newn' rv item w :
  same_index newn newn' →
  update_changed_node self newn rv item w
    = update_changed_node self newn' rv item w.
Proof.
  intros H. destruct item as [k d]. unfold update_changed_node.
  apply (same_index_lookup _ _ k) in H.
  destruct (dict_lookup newn k) as [n|], (dict_lookup newn' k) as [n'|];
    try done.
  by rewrite <- !H.
Qed.

Lemma for_each_ext {A} (l : list A) (body body' : A → M unit) w :
  (∀ x w, body x w = body' x w) → for_each l body w = for_each l body' w.
Proof.
  intros H. revert w. induction l as [|x l IH]; intros w; [done|].
  cbn [for_each]. rewrite !bind_run, H.
  destruct (res (body' x w)); [|done]. by rewrite IH.
Qed.

Lemma for_each_same dbn rv l l' w :
  same_index l l' →
  for_each l (create_new_node self dbn rv) w
    = for_each l' (create_new_node self dbn rv) w.
Proof.
  intros H. revert w.
  induction H as [|[k n] [k' n'] l l' [Hk Hn] _ IH]; intros w; [done|].
  cbn [fst snd] in Hk, Hn. subst k'. cbn [for_each].
  rewrite !bind_run, (create_new_node_same dbn rv k n n' w Hn).
  destruct (res (create_new_node self dbn rv (k, n') w)); [|done].
  by rewrite IH.
Qed.

Lemma bind_ext {A B} (m m' : M A) (k k' : A → M B) w :
  m w = m' w → (∀ a w', k a w' = k' a w') → (m ≫= k) w = (m' ≫= k') w.
Proof.
  intros Hm Hk. rewrite !bind_run, Hm.
  destruct (res (m' w)); [|done]. by rewrite Hk.
Qed.

Lemma synchronise_same dbn newn newn' dbe newe rv w :
  same_index newn newn' →
  synchronise self dbn newn dbe newe rv w
    = synchronise self dbn newn' dbe newe rv w.
Proof.
  intros H. unfold synchronise.
  apply bind_ext.
  { apply for_each_ext. intros k w'. unfold delete_absent_node.
    by rewrite (same_index_mem _ _ k H). }
  intros _ w1. apply bind_ext; [by apply for_each_same|].
  intros _ w2. apply bind_ext; [|done].
  apply for_each_ext. intros item w'. by apply update_changed_node_same.
Qed.

Lemma indexes_same db_graph nodes nodes' edges :
  Forall2 same_but_node_type nodes nodes' →
  match indexes self db_graph nodes edges,
        indexes self db_graph nodes' edges with
  | Ok (dbn, newn, dbe, newe), Ok (dbn', newn', dbe', newe') =>
      dbn = dbn' ∧ same_index newn newn' ∧ dbe = dbe' ∧ newe = newe'
  | Raise e, Raise e' => e = e'
  | _, _ => False
  end.
Proof.
  intros H. unfold indexes.
  destruct (doc_getitem db_graph "nodes") as [db_nodes|];
    cbn [mbind result_bind rbind]; [|done].
  destruct (doc_getitem db_graph "edges") as [db_edges|];
    cbn [mbind result_bind rbind]; [|done].
  destruct (rows_of db_nodes ≫= _) as [a|]; cbn [mbind result_bind rbind];
    [|done].
  pose proof (index_objs_same "node_id" nodes nodes' [] [] ltac:(done) H
                ltac:(constructor)) as Hi.
  destruct (index_objs self "node_id" nodes []) as [b|],
           (index_objs self "node_id" nodes' []) as [b'|];
    cbn [mbind result_bind rbind]; try done.
  destruct (rows_of db_edges ≫= _) as [c|]; cbn [mbind result_bind rbind];
    [|done].
  destruct (index_objs self "edge_id" edges []) as [d|];
    cbn [mbind result_bind rbind]; done.
Qed.

(** C10.  The desired nodes reach [update_graph] through their id and the
    five compared fields only: two lists of desired nodes that differ in
    [node_type] alone give the same run (the same result, the same queries
    sent to the engine, the same write methods invoked with the same
    arguments); and a node whose persisted and desired name, pos_x, pos_y,
    picture_path and description are equal is the subject of no call,
    whatever the two values of node_type. *)
Theorem node_type_ignored
    (version : option string) (nodes nodes' edges : list pyobj) (w : world) :
  Forall2 same_but_node_type nodes nodes' →
  update_graph self version nodes edges w
    = update_graph self version nodes' edges w
  ∧ ∀ db_graph dbn newn dbe newe node_id_str db_node node_obj,
      res (graph_by_version_get self version w) = Ok db_graph →
      indexes self db_graph nodes edges = Ok (dbn, newn, dbe, newe) →
      dict_lookup dbn node_id_str = Some db_node →
      dict_lookup newn node_id_str = Some node_obj →
      node_fields_equal self db_node node_obj = true →
      Forall (λ c, ¬ on_node node_id_str c)
        (log (update_graph self version nodes edges w)).
Proof.
  intros H. split.
  - rewrite !update_graph_run.
    destruct (res (graph_by_version_get self version w)) as [db_graph|]; [|done].
    pose proof (indexes_same db_graph nodes nodes' edges H) as Hi.
    destruct (indexes self db_graph nodes edges) as [[[[a b] c] d]|],
             (indexes self db_graph nodes' edges) as [[[[a' b'] c'] d']|];
      try done; [|by subst].
    destruct Hi as (<- & Hb & <- & <-).
    apply bind_ext; [done|]. intros rv w'. by apply synchronise_same.
  - intros db_graph dbn newn dbe newe id d obj Hg Hi Hd Hobj Heq.
    destruct (indexes_NoDup _ _ _ _ _ _ _ Hi) as [Hnd _].
    rewrite update_graph_run, Hg, Hi.
    rewrite seq_log, (silent_resolve version). cbn [app].
    destruct (res (_resolve_version version _)) as [rv|]; [|constructor].
    by apply synchronise_untouched_node with d obj.
Qed.
End ClientProperties.

(** ** The properties at concrete inputs *)

Import Spec.

Lemma update_graph_idempotent_witness :
  update_graph (reading [small_board]) (Some "v1")
      (small_nodes (VStr "person")) small_edges fresh
    = {| res := Ok tt;
         final := final (graph_by_version_get (reading [small_board])
                           (Some "v1") fresh);
         log := [] |}.
Proof.
  apply (proj1 (update_graph_idempotent (reading [small_board]) (Some "v1")
                  (small_nodes (VStr "person")) small_edges fresh small_board
                  ltac:(vm_compute; reflexivity))).
  vm_compute. reflexivity.
Defined.

(** C1 as stated fails: with a persisted node whose pos_x is NaN and the
    desired state made of that very row, the first synchronisation
    returns, and so does the second, which updates the node again. *)
Lemma update_graph_nan_resynchronised :
  let row := db_node 1 "a" S754_nan two in
  let self := reading [board [row] []] in
  let first := update_graph self (Some "v1") [ODict row] [] fresh in
  let second := update_graph self (Some "v1") [ODict row] [] (final first) in
  res first = Ok tt
  ∧ res second = Ok tt
  ∧ log second = [NodeUpdate (VStr "1") (VStr "a") (VFloat S754_nan)
                    (VFloat two) VNone VNone (Some "v1")]
  ∧ persisted_equals_desired self (board [row] []) [ODict row] [] = false.
Proof. vm_compute. repeat split; reflexivity. Qed.

(** C2 as stated fails: an edge created in the fifth phase is followed by
    the deletion and the creation of an edge whose endpoints changed. *)
Lemma update_graph_phase_order_violated :
  let calls :=
    log (update_graph (reading [board [] [db_edge 7 1 2 "x"]]) (Some "v1") []
           [EdgeDTO 8 1 3 "new"; EdgeDTO 7 1 3 "x"] fresh) in
  calls = [EdgeCreate (VStr "8") (VStr "1") (VStr "3") (VStr "new") (Some "v1");
           EdgeDelete (VStr "7") (Some "v1");
           EdgeCreate (VStr "7") (VStr "1") (VStr "3") (VStr "x") (Some "v1")]
  ∧ phase_ordered calls = false.
Proof. vm_compute. split; reflexivity. Qed.

Lemma get_versions_no_documents_witness :
  res (get_versions (reading []) fresh) = Raise (NameError "resolved_version").
Proof.
  apply (get_versions_no_documents (reading []) "versions tsarstvie" fresh);
    vm_compute; reflexivity.
Defined.

Lemma resolve_version_spec_witness :
  res (_resolve_version None
         (final (set_active_version (reading []) "v2" fresh))) = Ok "v2"
  ∧ _resolve_version None fresh = raise ActiveVersionError fresh
  ∧ _resolve_version None (set_active (Some "v1") fresh)
      = ret "v1" (set_active (Some "v1") fresh).
Proof.
  destruct (resolve_version_spec (reading [])) as (_ & H2 & H3 & H4).
  split; [|split].
  - apply H4. vm_compute. reflexivity.
  - apply H3. reflexivity.
  - apply H2. reflexivity.
Defined.

Lemma debug_gate_witness :
  investigation_create (reading []) fresh
    = {| res := Raise OperationIsNotAllowed; final := fresh; log := [] |}
  ∧ drop_database (reading []) (Some "test_db") fresh
    = {| res := Raise OperationIsNotAllowed; final := fresh; log := [] |}.
Proof.
  destruct (debug_gate (reading []) (Some "test_db") fresh eq_refl)
    as (_ & H2 & H3 & _).
  split; [exact H3|exact H2].
Defined.

Lemma transaction_discipline_witness :
  let body := λ tx, perform failing_close (TxQuery tx "q") ≫= expect_done in
  let o := transaction failing_close WRITE body fresh in
  res o = Ok tt
  ∧ ∃ closed,
      trace (final o)
        = [(TransactionOpen "investigation_board" WRITE, Done);
           (TxQuery 0 "q", Done)] ++ [(TxClose 0, closed)].
Proof.
  intros body o.
  destruct (proj1 (transaction_discipline failing_close) unit WRITE body fresh
              ltac:(vm_compute; discriminate)) as [Hres [closed Htrace]].
  split.
  - exact Hres.
  - exists closed. exact Htrace.
Defined.

Lemma NodeDTO_same_but_node_type id name x y t t' :
  same_but_node_type (NodeDTO id name x y t) (NodeDTO id name x y t').
Proof.
  intros field Hne. unfold NodeDTO, get_field. cbn [dict_lookup].
  repeat match goal with
         | |- context [String.eqb ?k field] =>
             destruct (String.eqb_spec k field); [congruence|]
         end.
  reflexivity.
Qed.

Lemma node_type_ignored_witness :
  update_graph (reading [small_board]) (Some "v1")
      (small_nodes (VStr "person")) small_edges fresh
    = update_graph (reading [small_board]) (Some "v1")
        (small_nodes (VStr "place")) small_edges fresh.
Proof.
  apply (node_type_ignored (reading [small_board]) (Some "v1")
           (small_nodes (VStr "person")) (small_nodes (VStr "place"))
           small_edges fresh).
  constructor; [apply NodeDTO_same_but_node_type|constructor].
Defined.

(** * Further properties *)

(** ** The query renderer and the catalogue *)

Section DriverExtras.
Variable py_format : string → gmap string pyval → format_outcome.
Variable operations : gmap string op_spec.

(** X1.  For parameters keyed by strings (keyword arguments always are; a
    [params] dict is when it has the annotated type, which is what
    [ParamsDict] holds), whatever goes wrong in [get_operation] (an unknown
    operation, a [params] argument that is not a dict, missing or extra
    parameters, any failure of the formatting) reaches the caller as
    [OperationError].  A [params] dict with a key that is not a string is
    not covered: there the listing of the extra names can raise
    [TypeError]. *)
Theorem get_operation_raises_operation_error
    (operation : string) (params : params_arg) (kwargs : gmap string pyval)
    (e : exn) :
  get_operation py_format operations operation params kwargs = Raise e →
  ∃ msg, e = OperationError msg.
Proof.
  unfold get_operation.
  destruct (operations !! operation) as [op|]; [|intros [= <-]; eauto].
  destruct (merge_params operation params kwargs) as [merged|e'] eqn:Em.
  - cbn [rbind]. unfold render.
    repeat case_bool_decide; try (intros [= <-]; by eauto).
    destruct (py_format _ _); intros [= <-]; eauto.
  - cbn [rbind]. intros [= <-]. revert Em. unfold merge_params.
    destruct (params_truthy params), params; cbn [rbind];
      repeat case_bool_decide; intros [= <-]; eauto.
Qed.

(** X2.  For a known operation called with a [params] dict (keyed by
    strings) and keywords, what is validated and formatted is one merged
    mapping, which holds under each key the keyword's value when the key is
    a keyword and the dict's value otherwise: the keyword wins on a common
    key, and no key of either is dropped. *)
Theorem get_operation_override_wins
    (operation : string) (op : op_spec) (params kwargs : gmap string pyval) :
  operations !! operation = Some op →
  ∃ merged,
    (∀ key, merged !! key = match kwargs !! key with
                            | Some v => Some v
                            | None => params !! key
                            end)
    ∧ get_operation py_format operations operation (ParamsDict params) kwargs
        = render py_format operation op merged.
Proof.
  intros Hop. exists (kwargs ∪ params). split.
  - intros key. rewrite lookup_union.
    by destruct (kwargs !! key), (params !! key).
  - unfold get_operation. by rewrite Hop, merge_params_dict.
Qed.

(** X3.  An operation the catalogue does not hold is reported as unknown
    by [get_operation], before its parameters are looked at, and by
    [required_params] and [describe_operation]; [has_operation] tells
    exactly when. *)
Theorem unknown_operation (operation : string) :
  (has_operation operations operation = false
   ↔ required_params operations operation
       = Raise (OperationError (msg_unknown operation)))
  ∧ (has_operation operations operation = false →
     describe_operation operations operation
       = Raise (OperationError (msg_unknown operation))
     ∧ ∀ params kwargs,
         get_operation py_format operations operation params kwargs
           = Raise (OperationError (msg_unknown operation))).
Proof.
  unfold has_operation, required_params, describe_operation, get_operation.
  destruct (operations !! operation) as [op|] eqn:E.
  - rewrite bool_decide_eq_true_2 by eauto. split; [split|]; done.
  - rewrite bool_decide_eq_false_2 by (by intros [? ?]). split; [split|]; done.
Qed.

(** X4.  [describe_operation] lists the required parameters of the
    operation in increasing order, each once, and repeats the name it was
    asked for. *)
Theorem describe_operation_params (operation : string)
    (d : operation_description) :
  describe_operation operations operation = Ok d →
  d_operation d = operation
  ∧ ∃ required,
      required_params operations operation = Ok required
      ∧ sorted_listing required (d_params d).
Proof.
  unfold describe_operation, required_params.
  destruct (operations !! operation) as [op|]; [|done].
  intros [= <-]. split; [done|]. exists (op_params op). split; [done|].
  apply sorted_names_listing.
Qed.
End DriverExtras.

(** ** Loading the catalogue *)

Section LoaderExtras.
Variable fs : file_system.

Lemma entry_fields_inv entry operation filename params fields :
  entry_fields fs entry = Ok (operation, filename, params, fields) →
  entry = JObject fields
  ∧ json_get fields "operation" = JStr operation
  ∧ json_get fields "file" = JStr filename
  ∧ ∃ items, json_get fields "params" = JList items
             ∧ json_strings items = Some params.
Proof.
  unfold entry_fields. destruct entry as [| | | | |?|fs']; try done.
  destruct (json_get fs' "operation") as [| | | |o|?|?] eqn:Eo; try done.
  cbn [json_str]. destruct (negb _); [done|].
  destruct (json_get fs' "file") as [| | | |f|?|?] eqn:Ef; try done.
  cbn [json_str]. destruct (negb _); [done|].
  destruct (json_get fs' "params") as [| | | | |items|?] eqn:Ep; try done.
  destruct (json_strings items) as [names|] eqn:En; [|done].
  intros [= <- <- <- <-]. eauto 10.
Qed.

(** One entry that loads adds one operation under a name not yet taken. *)
Lemma _process_spec_entry_inv base_dir operations entry operations' :
  _process_spec_entry fs base_dir operations entry = Ok operations' →
  ∃ name op,
    entry_name entry = Some name
    ∧ operations !! name = None
    ∧ operations' = <[name := op]> operations
    ∧ loaded_from fs base_dir entry op.
Proof.
  unfold _process_spec_entry.
  destruct (entry_fields fs entry) as [[[[name file] params] fields]|] eqn:Ef;
    [|done].
  apply entry_fields_inv in Ef as (-> & Ho & Hfile & items & Hp & Hn).
  cbn [rbind]. case_bool_decide as Hdup; [done|].
  destruct (isfile fs _) eqn:Hisfile; [|done]. cbn [negb].
  destruct (read_text fs _) as [text|] eqn:Hr; [|done].
  intros [= <-]. eexists name, _. split; [|split; [|split; [done|]]].
  - cbn [entry_name]. by rewrite Ho.
  - destruct (operations !! name) eqn:E; [|done]. exfalso. apply Hdup. eauto.
  - exists fields, items, params. cbn [op_file op_params op_template].
    by repeat split.
Qed.

Lemma process_entries_inv base_dir operations entries loaded :
  process_entries fs base_dir operations entries = Ok loaded →
  operations ⊆ loaded
  ∧ Forall (λ entry, ∃ name op,
              entry_name entry = Some name
              ∧ operations !! name = None
              ∧ loaded !! name = Some op
              ∧ loaded_from fs base_dir entry op) entries
  ∧ (∀ name, is_Some (loaded !! name) →
       is_Some (operations !! name) ∨ Some name ∈ entry_name <$> entries)
  ∧ NoDup (entry_name <$> entries).
Proof.
  revert operations. induction entries as [|entry entries IH]; intros operations.
  - intros [= <-]. repeat split; [done|constructor|by left|constructor].
  - cbn [process_entries].
    destruct (_process_spec_entry fs base_dir operations entry) as [ops'|] eqn:E;
      [|done].
    cbn [rbind]. intros Hrest.
    apply _process_spec_entry_inv in E as (name & op & Hname & Hfree & -> & Hop).
    apply IH in Hrest as (Hsub & Hall & Hdom & Hnd).
    assert (loaded !! name = Some op) as Hl.
    { eapply lookup_weaken; [|exact Hsub]. apply lookup_insert_eq. }
    repeat split.
    + etrans; [|exact Hsub]. by apply insert_subseteq.
    + constructor; [by eauto 10|].
      eapply Forall_impl; [exact Hall|].
      intros e (n & o & Hn & Hfree' & Ho & Hfrom). exists n, o.
      repeat split; try done.
      destruct (decide (name = n)) as [->|Hne].
      * by rewrite lookup_insert_eq in Hfree'.
      * by rewrite lookup_insert_ne in Hfree'.
    + intros n Hn. destruct (Hdom n Hn) as [Hin|Hin].
      * destruct (decide (name = n)) as [->|Hne].
        -- right. rewrite fmap_cons, Hname. apply list_elem_of_here.
        -- left. by rewrite lookup_insert_ne in Hin.
      * right. rewrite fmap_cons. by apply list_elem_of_further.
    + rewrite fmap_cons. apply NoDup_cons. split; [|done].
      rewrite Hname. intros Hin.
      apply list_elem_of_fmap in Hin as (e & He & Hin).
      rewrite Forall_forall in Hall.
      destruct (Hall e Hin) as (n & o & Hn & Hfree' & _).
      assert (n = name) as -> by congruence.
      by rewrite lookup_insert_eq in Hfree'.
Qed.

(** X5.  A catalogue that loads holds exactly the operations the
    specification file declares, each with its declared file name, the set
    of its listed parameters and the text read from its template file. *)
Theorem load_holds_declared
    (db_root version spec_filename : string) (loaded : gmap string op_spec) :
  load fs db_root version spec_filename = Ok loaded →
  ∃ entries,
    load_json fs (path_join fs (path_join fs db_root version) spec_filename)
      = JsonValue (JList entries)
    ∧ Forall (λ entry, ∃ name op,
                entry_name entry = Some name
                ∧ loaded !! name = Some op
                ∧ loaded_from fs (path_join fs db_root version) entry op)
        entries
    ∧ ∀ name, has_operation loaded name = true
              ↔ Some name ∈ entry_name <$> entries.
Proof.
  unfold load. destruct (negb (isdir fs _)); [done|].
  destruct (negb (isfile fs _)); [done|].
  destruct (load_json fs _) as [[| | | | |entries|]|]; try done.
  intros H. exists entries. split; [done|].
  apply process_entries_inv in H as (_ & Hall & Hdom & _). split.
  - eapply Forall_impl; [exact Hall|].
    intros e (n & o & Hn & _ & Ho & Hfrom). eauto 10.
  - intros name. unfold has_operation. rewrite bool_decide_eq_true. split.
    + intros Hn. destruct (Hdom name Hn) as [Hin|Hin]; [|done].
      rewrite lookup_empty in Hin. by destruct Hin.
    + intros Hin. apply list_elem_of_fmap in Hin as (e & He & Hin).
      rewrite Forall_forall in Hall.
      destruct (Hall e Hin) as (n & o & Hn & _ & Ho & _).
      assert (n = name) as -> by congruence. eauto.
Qed.

Lemma process_entries_app base_dir operations l1 l2 :
  process_entries fs base_dir operations (l1 ++ l2)
    = rbind (process_entries fs base_dir operations l1)
            (λ loaded, process_entries fs base_dir loaded l2).
Proof.
  revert operations. induction l1 as [|entry l1 IH]; intros operations; [done|].
  cbn [app process_entries].
  destruct (_process_spec_entry fs base_dir operations entry); [|done].
  cbn [rbind]. apply IH.
Qed.

Lemma entry_fields_name entry operation filename params fields :
  entry_fields fs entry = Ok (operation, filename, params, fields) →
  entry_name entry = Some operation.
Proof.
  intros (-> & Ho & _)%entry_fields_inv. cbn [entry_name]. by rewrite Ho.
Qed.

(** X6.  A specification in which two entries declare the same operation
    name never loads; when the entries before the second of the two load
    and its own fields are valid, the error is the [SpecificationError] for
    the duplicate name. *)
Theorem duplicate_operation_rejected (base_dir : string)
    (before after : list json) (entry : json) (name : string) :
  entry_name entry = Some name →
  Some name ∈ entry_name <$> before →
  (∀ loaded, process_entries fs base_dir ∅ (before ++ entry :: after)
               ≠ Ok loaded)
  ∧ ∀ loaded filename params fields,
      process_entries fs base_dir ∅ before = Ok loaded →
      entry_fields fs entry = Ok (name, filename, params, fields) →
      process_entries fs base_dir ∅ (before ++ entry :: after)
        = Raise (SpecificationError (msg_duplicate name)).
Proof.
  intros Hname Hin. split.
  - intros loaded H. apply process_entries_inv in H as (_ & _ & _ & Hnd).
    rewrite fmap_app, fmap_cons, Hname in Hnd.
    apply NoDup_app in Hnd as (_ & Hdisj & _).
    apply (Hdisj _ Hin), list_elem_of_here.
  - intros loaded filename params fields Hbefore Hfields.
    rewrite process_entries_app, Hbefore. cbn [rbind process_entries].
    apply process_entries_inv in Hbefore as (_ & Hall & _ & _).
    apply list_elem_of_fmap in Hin as (e & He & Hin).
    rewrite Forall_forall in Hall.
    destruct (Hall e Hin) as (n & o & Hn & _ & Ho & _).
    assert (n = name) as -> by congruence.
    unfold _process_spec_entry. rewrite Hfields. cbn [rbind].
    rewrite bool_decide_eq_true_2 by eauto. done.
Qed.

(** X7.  The load is sequential and stops at the first entry that fails.
    In particular, when the entries before it load, an entry with valid
    fields and a fresh name whose template file does not exist makes the
    load raise [TemplateFileError] naming the file and the operation,
    whatever follows. *)
Theorem missing_template_rejected (base_dir : string)
    (before after : list json) (entry : json)
    (loaded : gmap string op_spec) :
  process_entries fs base_dir ∅ before = Ok loaded →
  (∀ e, _process_spec_entry fs base_dir loaded entry = Raise e →
        process_entries fs base_dir ∅ (before ++ entry :: after) = Raise e)
  ∧ ∀ name filename params fields,
      entry_fields fs entry = Ok (name, filename, params, fields) →
      loaded !! name = None →
      isfile fs (path_join fs base_dir filename) = false →
      process_entries fs base_dir ∅ (before ++ entry :: after)
        = Raise (TemplateFileError
                   (msg_template_missing (path_join fs base_dir filename) name)).
Proof.
  intros Hbefore.
  assert (∀ e, _process_spec_entry fs base_dir loaded entry = Raise e →
               process_entries fs base_dir ∅ (before ++ entry :: after) = Raise e)
    as Hfirst.
  { intros e He. rewrite process_entries_app, Hbefore.
    cbn [rbind process_entries]. by rewrite He. }
  split; [exact Hfirst|].
  intros name filename params fields Hfields Hfree Hmissing. apply Hfirst.
  unfold _process_spec_entry. rewrite Hfields. cbn [rbind].
  rewrite bool_decide_eq_false_2 by (rewrite Hfree; by intros [? ?]).
  by rewrite Hmissing.
Qed.

(** X8.  Loading and rendering compose: for an entry of a specification
    that loaded, rendering its operation with exactly its listed parameters
    formats the text of its template file. *)
Theorem loaded_operation_renders
    (py_format : string → gmap string pyval → format_outcome)
    (db_root version spec_filename : string) (loaded : gmap string op_spec)
    (entries : list json) (entry : json) (name : string) :
  load fs db_root version spec_filename = Ok loaded →
  load_json fs (path_join fs (path_join fs db_root version) spec_filename)
    = JsonValue (JList entries) →
  entry ∈ entries →
  entry_name entry = Some name →
  ∃ op,
    loaded_from fs (path_join fs db_root version) entry op
    ∧ ∀ kwargs,
        dom kwargs = op_params op →
        get_operation py_format loaded name params_none kwargs
          = match py_format (op_template op) kwargs with
            | Formatted query => Ok query
            | FormatKeyError key =>
                Raise (OperationError (msg_format_key name key))
            | FormatFailure text =>
                Raise (OperationError (msg_format_failure name text))
            end.
Proof.
  intros Hload Hjson Hin Hname. unfold load in Hload.
  destruct (negb (isdir fs _)); [done|].
  destruct (negb (isfile fs _)); [done|].
  rewrite Hjson in Hload.
  apply process_entries_inv in Hload as (_ & Hall & _ & _).
  rewrite Forall_forall in Hall.
  destruct (Hall entry Hin) as (n & op & Hn & _ & Hop & Hfrom).
  assert (n = name) as -> by congruence.
  exists op. split; [done|]. intros kwargs Hdom.
  unfold get_operation. rewrite Hop, merge_params_none. cbn [rbind].
  unfold render. rewrite Hdom.
  rewrite !bool_decide_eq_false_2; first done;
    intros Hne; apply Hne, difference_diag_L.
Qed.
End LoaderExtras.

(** ** The write methods of the client *)

Section ClientExtras.
Variable self : client.

(** The part every write method shares after its bookkeeping: the version,
    the query, the write. *)
Lemma catalogue_write_run version op_name (kwargs : string → gmap string pyval) w :
  let m := (resolved_version ← _resolve_version version;
            query ← _build_query self op_name (kwargs resolved_version);
            _execute_write self op_name query) in
  m w =
    match version_in w version with
    | None => {| res := Raise ActiveVersionError; final := w; log := [] |}
    | Some v =>
        match get_operation (py_format self) (template_driver self) op_name
                params_none (kwargs v) with
        | Raise _ =>
            {| res := Raise TemplateProcessingError; final := w; log := [] |}
        | Ok query => _execute_write self op_name query w
        end
    end.
Proof.
  intros m. unfold m. rewrite bind_run, _resolve_version_run.
  cbn [lift res final log app]. unfold version_in.
  assert (match version with
          | Some v => Ok v
          | None => match active_version w with
                    | Some v => Ok v
                    | None => Raise ActiveVersionError
                    end
          end
          = match (match version with Some v => Some v | None => active_version w end)
            with Some v => Ok v | None => Raise ActiveVersionError end) as ->.
  { destruct version; [done|]. by destruct (active_version w). }
  destruct (match version with Some v => Some v | None => active_version w end)
    as [v|]; [|done].
  rewrite bind_run, _build_query_run. cbn [res final log app].
  destruct (get_operation _ _ _ _ _) as [query|]; [|done].
  pose proof (silent_write self op_name query w) as Hs.
  destruct (_execute_write self op_name query w) as [r f l].
  cbn [res final log app] in *. by subst.
Qed.

Lemma invoked_run (c : client_call) (m : M unit) w :
  (invoked c;; m) w
    = {| res := res (m w); final := final (m w); log := c :: log (m w) |}.
Proof. by rewrite bind_run. Qed.

(** X9.  A write method given no version while no active version is
    cached raises [ActiveVersionError] and nothing reaches the engine. *)
Theorem write_without_version_refused (c : client_call) (w : world) :
  call_version c = None →
  active_version w = None →
  refused (run_call self c w) ActiveVersionError w.
Proof.
  intros Hv Ha.
  destruct c; cbn [call_version] in Hv; subst; cbn [run_call];
    unfold node_delete, node_create, node_update, edge_delete, edge_create,
      edge_update;
    rewrite invoked_run; cbn [res final];
    rewrite bind_run, _resolve_version_run; cbn [lift res final];
    by rewrite Ha.
Qed.

(** X10.  A write method whose operation is not in the catalogue raises
    [TemplateProcessingError] once its version is resolved, and nothing
    reaches the engine. *)
Theorem write_without_template_refused (c : client_call) (w : world)
    (v : string) :
  version_in w (call_version c) = Some v →
  template_driver self !! call_operation c = None →
  refused (run_call self c w) TemplateProcessingError w.
Proof.
  intros Hv Ht.
  destruct c; cbn [call_version call_operation] in Hv, Ht; cbn [run_call];
    unfold node_delete, node_create, node_update, edge_delete, edge_create,
      edge_update;
    rewrite invoked_run; cbn [res final];
    rewrite catalogue_write_run, Hv;
    unfold get_operation; by rewrite Ht.
Qed.

Lemma _execute_write_one op_name query w :
  one_write (db_name self) w (_execute_write self op_name query w).
Proof.
  destruct (_execute_write_quiet self op_name query w) as (_ & Ha & Hd).
  split; [done|]. split; [done|]. right.
  destruct (scoped_query_commit self WRITE query w) as (Hs & _ & Hr).
  split; [exact Hs|exact Hr].
Qed.

Lemma catalogue_write_one version op_name (kwargs : string → gmap string pyval) w :
  one_write (db_name self) w
    ((resolved_version ← _resolve_version version;
      query ← _build_query self op_name (kwargs resolved_version);
      _execute_write self op_name query) w).
Proof.
  rewrite catalogue_write_run.
  destruct (version_in w version) as [v|].
  - destruct (get_operation _ _ _ _ _) as [query|].
    + apply _execute_write_one.
    + split; [done|]. split; [done|]. left. split; [done|]. by right.
  - split; [done|]. split; [done|]. left. split; [done|]. by left.
Qed.

(** X11.  Each of the six node and edge write methods ([node_create],
    [node_update], [node_delete], [edge_create], [edge_update],
    [edge_delete]), [graph_by_version_delete] and
    [graph_by_version_create] keeps the cached active version and the
    environment, and either fails before the engine is reached (on the
    version or on the template) or makes exactly one WRITE transaction,
    which is closed, and returns or raises [QueryExecutionError].
    [graph_by_version_create] takes its version as given and never raises
    [ActiveVersionError].  The other writing methods are not covered:
    [set_active_version] changes the cache, and [investigation_create]
    makes a SCHEMA transaction before its WRITE one. *)
Theorem write_is_one_transaction :
  (∀ c w, one_write (db_name self) w (run_call self c w)
          ∧ log (run_call self c w) = [c])
  ∧ (∀ version w,
       one_write (db_name self) w (graph_by_version_delete self version w))
  ∧ (∀ version w,
       one_write (db_name self) w (graph_by_version_create self version w)
       ∧ res (graph_by_version_create self version w)
           ≠ Raise ActiveVersionError).
Proof.
  split; [|split].
  - intros c w. split.
    + destruct c; cbn [run_call];
        unfold node_delete, node_create, node_update, edge_delete, edge_create,
          edge_update;
        rewrite invoked_run; unfold one_write; cbn [res final];
        apply catalogue_write_one.
    + destruct c; cbn [run_call].
      * apply node_delete_log.
      * apply node_create_log.
      * apply node_update_log.
      * apply edge_delete_log.
      * apply edge_create_log.
      * apply edge_update_log.
  - intros version w. unfold graph_by_version_delete.
    apply catalogue_write_one.
  - intros version w. unfold graph_by_version_create.
    pose proof (catalogue_write_one (Some version) "graph-by-version-create"
                  (λ v, list_to_map
                          [("investigation_name", VStr (INVESTIGATION_NAME self));
                           ("version", VStr version)]) w) as H.
    change (_resolve_version (Some version)) with (@ret string version) in H.
    rewrite bind_ret_run in H. split; [exact H|].
    rewrite bind_run, _build_query_run. cbn [res final log app].
    destruct (get_operation _ _ _ _ _) as [query|]; [|done].
    destruct (_execute_write_res self "graph-by-version-create" query w)
      as [E|E]; rewrite E; done.
Qed.

(** ** The debug-gated methods with the flag set *)

Lemma debug_allowed_run w d :
  DEBUG_DB w = Some d → _ensure_debug_allowed w = ret tt w.
Proof.
  intros H. unfold _ensure_debug_allowed. rewrite bind_run.
  cbn [getenv_DEBUG_DB res final log app]. by rewrite H.
Qed.

Lemma read_schema_run w :
  let r := driver self (trace w) ReadSchemaFile in
  try_except (perform self ReadSchemaFile ≫= expect_text)
      (λ _, raise TypeDBClientError) w
    = {| res := match r with
                | Text text => Ok text
                | _ => Raise TypeDBClientError
                end;
         final := record_event (ReadSchemaFile, r) w; log := [] |}.
Proof.
  intros r. unfold try_except. rewrite bind_run.
  cbn [perform res final log app]. fold r. by destruct r.
Qed.

(** X12.  With the flag set, [investigation_create] reads the schema file
    first: when the read fails it raises [TypeDBClientError] and no
    transaction is opened; when the schema step fails it raises
    [QueryExecutionError] and the catalogue operation is not attempted;
    otherwise the catalogue operation runs after the schema step. *)
Theorem investigation_create_steps (w : world) (d : string) :
  DEBUG_DB w = Some d →
  let r := driver self (trace w) ReadSchemaFile in
  let w1 := record_event (ReadSchemaFile, r) w in
  ((∀ text, r ≠ Text text) →
   investigation_create self w
     = {| res := Raise TypeDBClientError; final := w1; log := [] |})
  ∧ ∀ text,
      r = Text text →
      let schema := apply_schema self text w1 in
      (res schema ≠ Ok tt →
       investigation_create self w
         = {| res := Raise QueryExecutionError; final := final schema;
              log := [] |})
      ∧ (res schema = Ok tt →
         investigation_create self w
           = (query ← _build_query self "investigation-create"
                        (list_to_map [("investigation_name",
                                       VStr (INVESTIGATION_NAME self))]);
              _execute_write self "investigation-create" query)
               (final schema)).
Proof.
  intros Hd r w1. unfold investigation_create.
  rewrite bind_run, (debug_allowed_run w d Hd). cbn [ret res final log app].
  rewrite bind_run, read_schema_run. fold r w1. cbn [res final log app].
  split.
  - intros Hr. destruct r; try done. by destruct (Hr text).
  - intros text ->. cbv zeta.
    destruct (scoped_query_commit self SCHEMA text w1) as (_ & Hlog & Hres).
    change (try_except _ _ w1) with (apply_schema self text w1) in Hlog, Hres.
    rewrite bind_run, Hlog. split.
    + intros Hne. destruct Hres as [E|E]; [done|]. by rewrite E.
    + intros E. rewrite E. cbn [app].
      set (m := _build_query self _ _ ≫= _).
      by destruct (m (final (apply_schema self text w1))).
Qed.

Lemma contains_run name w :
  let c := DatabasesContains name in
  (perform self c ≫= expect_truth) w
    = {| res := match driver self (trace w) c with
                | Truth b => Ok b
                | _ => Raise DriverException
                end;
         final := record_event (c, driver self (trace w) c) w; log := [] |}.
Proof.
  intros c. rewrite bind_run. cbn [perform res final log app].
  by destruct (driver self (trace w) c).
Qed.

(** X13.  With the flag set, [create_database] asks whether the database
    exists and creates it only when the answer is no; [drop_database] asks
    and deletes it only when the answer is yes; neither makes any other
    call; every failure of the engine is a [TypeDBClientError]; and an
    absent or empty name stands for the client's own database. *)
Theorem database_methods (name : option string) (w : world) (d : string) :
  DEBUG_DB w = Some d →
  let db := match name with
            | Some (String c n) => String c n
            | _ => db_name self
            end in
  let asked := driver self (trace w) (DatabasesContains db) in
  let w1 := record_event (DatabasesContains db, asked) w in
  let after c := record_event (c, driver self (trace w1) c) w1 in
  let change c :=
    {| res := if raises (driver self (trace w1) c)
              then Raise TypeDBClientError else Ok tt;
       final := after c; log := [] |} in
  let unchanged := {| res := Ok tt; final := w1; log := [] |} in
  let failed := {| res := Raise TypeDBClientError; final := w1; log := [] |} in
  create_database self name w
    = match asked with
      | Truth true => unchanged
      | Truth false => change (DatabasesCreate db)
      | _ => failed
      end
  ∧ drop_database self name w
    = match asked with
      | Truth true => change (DatabasesDelete db)
      | Truth false => unchanged
      | _ => failed
      end.
Proof.
  intros Hd db asked w1 after change unchanged failed.
  assert (name_or_default self name = db) as Hname.
  { unfold db. by destruct name as [[|]|]. }
  split.
  - unfold create_database.
    rewrite bind_run, (debug_allowed_run w d Hd). cbn [ret res final log app].
    rewrite Hname. unfold try_except.
    rewrite bind_run, contains_run. cbn [res final log app]. fold asked w1.
    destruct asked as [| |[|]| |]; try done.
    cbn [negb]. rewrite perform_done_run. cbn [res final log app].
    unfold change, after. by destruct (raises _).
  - unfold drop_database.
    rewrite bind_run, (debug_allowed_run w d Hd). cbn [ret res final log app].
    rewrite Hname. unfold try_except.
    rewrite bind_run, contains_run. cbn [res final log app]. fold asked w1.
    destruct asked as [| |[|]| |]; try done.
    rewrite perform_done_run. cbn [res final log app].
    unfold change, after. by destruct (raises _).
Qed.

Lemma ensure_database_exists_run w :
  let c := DatabasesContains (db_name self) in
  let asked := driver self (trace w) c in
  let w1 := record_event (c, asked) w in
  let c' := DatabasesCreate (db_name self) in
  ensure_database_exists self w
    = match asked with
      | Truth true => {| res := Ok tt; final := w1; log := [] |}
      | Truth false =>
          {| res := if raises (driver self (trace w1) c')
                    then Raise TypeDBClientError else Ok tt;
             final := record_event (c', driver self (trace w1) c') w1;
             log := [] |}
      | _ => {| res := Raise TypeDBClientError; final := w1; log := [] |}
      end.
Proof.
  intros c asked w1 c'. unfold ensure_database_exists, try_except.
  rewrite bind_run, contains_run. cbn [res final log app]. fold c asked w1.
  destruct asked as [| |[|]| |]; try done.
  cbn [negb]. rewrite perform_done_run. cbn [res final log app].
  fold c'. by destruct (raises _).
Qed.

(** X14.  [ensure_database_exists] is not gated: it asks the engine
    whatever [DEBUG_DB] is, and with the flag set it does what
    [create_database] does for the client's own database. *)
Theorem ensure_database_exists_ungated (w : world) :
  (∃ asked more,
     trace (final (ensure_database_exists self w))
       = trace w ++ (DatabasesContains (db_name self), asked) :: more)
  ∧ (∀ d, DEBUG_DB w = Some d →
       ensure_database_exists self w = create_database self None w).
Proof.
  split.
  - rewrite ensure_database_exists_run. cbv zeta.
    set (c := DatabasesContains (db_name self)).
    exists (driver self (trace w) c).
    destruct (driver self (trace w) c) as [| |[|]| |];
      cbn [final trace record_event]; try by exists [].
    eexists [_]. by rewrite <- app_assoc.
  - intros d Hd. unfold create_database.
    rewrite bind_run, (debug_allowed_run w d Hd). cbn [ret res final log app].
    unfold ensure_database_exists. cbn [name_or_default].
    by destruct (try_except _ _ w).
Qed.
End ClientExtras.

(** ** The diff synchroniser, further *)

Section SyncExtras.
Variable self : client.

(** X15.  [update_graph] invokes no write method before the persisted and
    the desired state are both indexed: when the read fails, or the
    document or an argument cannot be indexed (no [nodes] or [edges] entry,
    a row or an object without its id), it raises that error having made
    no call after the read. *)
Theorem update_graph_setup_failure
    (version : option string) (nodes edges : list pyobj) (w : world) (e : exn) :
  let o := graph_by_version_get self version w in
  (res o = Raise e
   ∨ ∃ db_graph, res o = Ok db_graph
                 ∧ indexes self db_graph nodes edges = Raise e) →
  update_graph self version nodes edges w
    = {| res := Raise e; final := final o; log := [] |}
  ∧ ∀ db_graph,
      (dict_lookup db_graph "nodes" = None →
       indexes self db_graph nodes edges = Raise (KeyError "nodes"))
      ∧ (∀ db_nodes, dict_lookup db_graph "nodes" = Some db_nodes →
           dict_lookup db_graph "edges" = None →
           indexes self db_graph nodes edges = Raise (KeyError "edges")).
Proof.
  intros o H. split.
  - rewrite update_graph_run. fold o.
    destruct H as [->|(db_graph & -> & ->)]; done.
  - intros db_graph. unfold indexes, doc_getitem. split.
    + by intros ->.
    + intros db_nodes -> ->. done.
Qed.

Lemma SFeqb_nan_r x : SFeqb x S754_nan = false.
Proof. by destruct x. Qed.

Lemma SFeqb_nan_l x : SFeqb S754_nan x = false.
Proof. by destruct x. Qed.

(** X16.  A position that is NaN never compares equal: a node present on
    both sides whose persisted or desired pos_x is NaN is updated by every
    synchronisation, and the two states do not count as equal. *)
Theorem nan_position_always_updated
    (new_nodes_by_id : list (string * pyobj)) (rv k : string)
    (db_node : pydict) (node_obj : pyobj)
    (name picture description : pyval) (x y db_x : spec_float) (w : world) :
  dict_lookup new_nodes_by_id k = Some node_obj →
  get_field node_obj "name" = Ok name →
  get_field node_obj "pos_x" ≫= py_float self = Ok x →
  get_field node_obj "pos_y" ≫= py_float self = Ok y →
  get_field node_obj "picture_path" = Ok picture →
  get_field node_obj "description" = Ok description →
  py_float self (dict_get db_node "pos_x") = Ok db_x →
  db_x = S754_nan ∨ x = S754_nan →
  log (update_changed_node self new_nodes_by_id rv (k, db_node) w)
    = [NodeUpdate (VStr k) name (VFloat x) (VFloat y) picture description
         (Some rv)]
  ∧ node_fields_equal self db_node node_obj = false.
Proof.
  intros Hl Hn Hx Hy Hp Hd Hdb Hnan.
  assert (SFeqb db_x x = false) as Hne.
  { destruct Hnan as [->| ->]; [apply SFeqb_nan_l|apply SFeqb_nan_r]. }
  split.
  - unfold update_changed_node. rewrite Hl, Hn, Hx, Hy, Hp, Hd.
    assert (need_update self db_node name x y picture description = Ok true)
      as Hneed.
    { unfold need_update. destruct (py_ne _ name); [done|].
      rewrite Hdb. cbn [mbind result_bind rbind]. by rewrite Hne. }
    rewrite !bind_lift_run, Hneed. apply node_update_log.
  - unfold node_fields_equal. rewrite Hn, Hp, Hd, Hx, Hdb.
    cbn [float_fields_equal]. rewrite Hne.
    by rewrite andb_false_r.
Qed.

(** X17.  An edge present on both sides whose endpoint changed (in string
    form) is deleted and, when the deletion returns, created again under
    the same id with the desired endpoints and description; it is never
    updated in place.  When only its description changed it is updated,
    once; when nothing changed no call is made. *)
Theorem edge_change_calls
    (new_edges_by_id : list (string * pyobj)) (rv k : string)
    (db_edge : pydict) (edge_obj : pyobj) (node1 node2 description : pyval)
    (w : world) :
  dict_lookup new_edges_by_id k = Some edge_obj →
  get_field edge_obj "node1" = Ok node1 →
  get_field edge_obj "node2" = Ok node2 →
  get_field edge_obj "description" = Ok description →
  let same_endpoints :=
    String.eqb (py_str self (dict_get db_edge "node1")) (py_str self node1)
    && String.eqb (py_str self (dict_get db_edge "node2")) (py_str self node2) in
  let delete := EdgeDelete (VStr k) (Some rv) in
  let create := EdgeCreate (VStr k) (VStr (py_str self node1))
                  (VStr (py_str self node2)) description (Some rv) in
  let o := update_changed_edge self new_edges_by_id rv (k, db_edge) w in
  (same_endpoints = false →
   (log o = [delete; create] ∨ log o = [delete] ∧ succeeded (res o) = false)
   ∧ (succeeded (res o) = true → log o = [delete; create]))
  ∧ (same_endpoints = true →
     log o = if py_ne (dict_get db_edge "description") description
             then [EdgeUpdate (VStr k) description (Some rv)] else []).
Proof.
  intros Hl H1 H2 Hd same delete create o.
  unfold o, update_changed_edge. rewrite Hl, H1, H2, Hd.
  cbn [fmap result_fmap rbind]. rewrite !bind_lift_run.
  assert (negb (String.eqb (py_str self (dict_get db_edge "node1"))
                           (py_str self node1))
          || negb (String.eqb (py_str self (dict_get db_edge "node2"))
                              (py_str self node2)) = negb same) as ->.
  { unfold same. by rewrite negb_andb. }
  split; intros ->; cbn [negb].
  - rewrite bind_run, edge_delete_log.
    destruct (res (edge_delete self _ _ w)) eqn:E; cbn [res log app succeeded].
    + rewrite edge_create_log. split; [by left|done].
    + split; [by right|done].
  - destruct (py_ne _ description); [|done]. apply edge_update_log.
Qed.

Lemma dict_lookup_set {V} (d : list (string * V)) k v k' :
  dict_lookup (dict_set d k v) k'
    = if String.eqb k k' then Some v else dict_lookup d k'.
Proof.
  induction d as [|[k0 v0] d IH]; cbn [dict_set dict_lookup]; [done|].
  destruct (String.eqb_spec k0 k) as [->|Hne]; cbn [dict_lookup].
  - by destruct (String.eqb k k').
  - rewrite IH. destruct (String.eqb_spec k0 k') as [->|Hne']; [|done].
    destruct (String.eqb_spec k k') as [->|]; done.
Qed.

Lemma index_objs_lookup key objs acc idx k :
  index_objs self key objs acc = Ok idx →
  dict_lookup idx k
    = match last (List.filter (has_id self key k) objs) with
      | Some n => Some n
      | None => dict_lookup acc k
      end.
Proof.
  revert acc. induction objs as [|n objs IH]; intros acc.
  - by intros [= <-].
  - cbn [index_objs List.filter]. unfold has_id at 1.
    destruct (get_field n key) as [v|]; cbn [mbind result_bind rbind]; [|done].
    intros H. rewrite (IH _ H), dict_lookup_set.
    destruct (String.eqb (py_str self v) k); [|done].
    destruct (List.filter (has_id self key k) objs) as [|n' l] eqn:E; [done|].
    rewrite last_cons_cons.
    destruct (last (n' :: l)) eqn:El; [done|]. by apply last_None in El.
Qed.

(** X18.  When the desired list holds several objects with the same id (in
    string form) the last one is the one synchronised: the index built for
    the desired state maps each id to the last object carrying it. *)
Theorem desired_duplicates_last_wins
    (key : string) (objs : list pyobj) (idx : list (string * pyobj))
    (k : string) :
  index_objs self key objs [] = Ok idx →
  dict_lookup idx k = last (List.filter (has_id self key k) objs)
  ∧ NoDup idx.*1.
Proof.
  intros H. split.
  - rewrite (index_objs_lookup key objs [] idx k H).
    by destruct (last _).
  - clear k. revert H. generalize (NoDup_nil_2 (A:=string)).
    change (@nil string) with ((@nil (string * pyobj)).*1).
    generalize (@nil (string * pyobj)) as acc.
    induction objs as [|n objs IH]; intros acc Hacc.
    + by intros [= <-].
    + cbn [index_objs]. destruct (get_field n key) as [v|];
        cbn [mbind result_bind rbind]; [|done].
      apply IH. by apply dict_set_NoDup.
Qed.

(** *** The cache and the environment are kept *)

Lemma keeps_bind {A B} (m : M A) (k : A → M B) :
  keeps m → (∀ a, keeps (k a)) → keeps (m ≫= k).
Proof.
  intros Hm Hk w. rewrite bind_run. destruct (Hm w) as [Ha Hd].
  destruct (res (m w)) as [a|]; cbn [final]; [|done].
  destruct (Hk a (final (m w))) as [Ha' Hd']. split; congruence.
Qed.

Lemma keeps_lift {A} (r : result A) : keeps (lift r).
Proof. intros w. by destruct r. Qed.

Lemma keeps_for_each {A} (l : list A) (body : A → M unit) :
  (∀ x, keeps (body x)) → keeps (for_each l body).
Proof.
  intros Hbody. induction l as [|x l IH]; [done|].
  cbn [for_each]. apply keeps_bind; [apply Hbody|by intros _].
Qed.

Lemma keeps_run_call c : keeps (run_call self c).
Proof.
  intros w.
  assert (one_write (db_name self) w (run_call self c w)) as (Ha & Hd & _);
    [|done].
  destruct c; cbn [run_call];
    unfold node_delete, node_create, node_update, edge_delete, edge_create,
      edge_update;
    rewrite invoked_run; unfold one_write; cbn [res final];
    apply catalogue_write_one.
Qed.

Lemma keeps_graph_by_version_get version :
  keeps (graph_by_version_get self version).
Proof.
  intros w. split; [apply graph_by_version_get_active|].
  unfold graph_by_version_get. rewrite bind_run, _resolve_version_run.
  cbn [lift res final log app].
  match goal with |- context [match ?r with Ok _ => _ | Raise _ => _ end] =>
    destruct r as [v|] end; [|done].
  rewrite bind_run, _build_query_run. cbn [res final log app].
  destruct (get_operation _ _ _ _ _) as [query|]; [|done].
  rewrite bind_run.
  destruct (_execute_read_quiet self "graph-by-version-get" query w)
    as (_ & _ & Hd).
  destruct (res (_execute_read self _ query w)) as [docs|]; [|done].
  destruct docs as [|doc docs]; [done|].
  cbn [res final]. by destruct (1 <? _)%nat.
Qed.

Lemma keeps_synchronise db_nodes_by_id new_nodes_by_id db_edges_by_id
    new_edges_by_id rv :
  keeps (synchronise self db_nodes_by_id new_nodes_by_id db_edges_by_id
           new_edges_by_id rv).
Proof.
  unfold synchronise.
  repeat (apply keeps_bind; [|intros _]); apply keeps_for_each.
  - intros k. unfold delete_absent_node.
    destruct (dict_mem _ _); [done|].
    apply (keeps_run_call (NodeDelete _ _)).
  - intros [k n]. unfold create_new_node.
    destruct (dict_mem _ _); [done|].
    repeat (apply keeps_bind; [apply keeps_lift|intros ?]).
    apply (keeps_run_call (NodeCreate _ _ _ _ _ _ _)).
  - intros [k d]. unfold update_changed_node.
    destruct (dict_lookup _ _); [|done].
    repeat (apply keeps_bind; [apply keeps_lift|intros ?]).
    match goal with |- keeps (if ?b then _ else _) => destruct b end; [|done].
    apply (keeps_run_call (NodeUpdate _ _ _ _ _ _ _)).
  - intros k. unfold delete_absent_edge.
    destruct (dict_mem _ _); [done|].
    apply (keeps_run_call (EdgeDelete _ _)).
  - intros [k n]. unfold create_new_edge.
    destruct (dict_mem _ _); [done|].
    repeat (apply keeps_bind; [apply keeps_lift|intros ?]).
    apply (keeps_run_call (EdgeCreate _ _ _ _ _)).
  - intros [k d]. unfold update_changed_edge.
    destruct (dict_lookup _ _); [|done].
    repeat (apply keeps_bind; [apply keeps_lift|intros ?]).
    match goal with |- keeps (if ?b then _ else _) => destruct b end.
    + apply keeps_bind; [apply (keeps_run_call (EdgeDelete _ _))|intros _].
      apply (keeps_run_call (EdgeCreate _ _ _ _ _)).
    + match goal with |- keeps (if ?b then _ else _) => destruct b end; [|done].
      apply (keeps_run_call (EdgeUpdate _ _ _)).
Qed.

(** X19.  [update_graph] never changes the cached active version nor the
    environment, whatever the engine answers and whether it returns or
    raises. *)
Theorem update_graph_keeps_cache
    (version : option string) (nodes edges : list pyobj) :
  keeps (update_graph self version nodes edges).
Proof.
  intros w. rewrite update_graph_run. cbv zeta.
  destruct (keeps_graph_by_version_get version w) as [Ha Hd].
  destruct (res (graph_by_version_get self version w)) as [db_graph|];
    [|done].
  destruct (indexes self db_graph nodes edges) as [[[[dn nn] de] ne]|];
    [|done].
  rewrite <- Ha, <- Hd.
  apply keeps_bind.
  - intros w'. by rewrite _resolve_version_run.
  - intros rv. apply keeps_synchronise.
Qed.

(** *** What a run that returns has done *)






End SyncExtras.

(** ** The service *)

Section ServiceExtras.
Variable client : TypeDBClient.client.

Lemma print_version_run (db_data : document) w :
  GraphService.print_version db_data w
    = match dict_lookup db_data "version" with
      | Some _ => ret tt w
      | None => raise (KeyError "version") w
      end.
Proof.
  unfold GraphService.print_version. rewrite bind_lift_run.
  unfold doc_getitem. by destruct (dict_lookup db_data "version").
Qed.

(** X21.  The readers of the service format [db_data['version']] before
    they return: when the document the client read has no [version] entry,
    [get_board], [get_nodes] and [get_edges] raise [KeyError] on
    [version], also when [nodes] and [edges] are there; when it has one,
    they return the document, its [nodes] and its [edges], whatever the
    filters are.  None of them does anything beyond the client's read. *)
Theorem readers_format_version
    (version : option string) (w : world) (db_data : document)
    (node_id name has_picture edge_id from_id to_id : pyval)
    (ids : list pyval) :
  let o := graph_by_version_get client version w in
  let answer {A} (r : result A) : outcome A :=
    {| res := r; final := final o; log := [] |} in
  res o = Ok db_data →
  (dict_lookup db_data "version" = None →
   GraphService.get_board client version w
     = answer (Raise (KeyError "version"))
   ∧ GraphService.get_nodes client version node_id ids name has_picture w
     = answer (Raise (KeyError "version"))
   ∧ GraphService.get_edges client version edge_id ids node_id from_id to_id w
     = answer (Raise (KeyError "version")))
  ∧ (dict_mem db_data "version" = true →
     GraphService.get_board client version w = answer (Ok db_data)
     ∧ GraphService.get_nodes client version node_id ids name has_picture w
       = answer (doc_getitem db_data "nodes")
     ∧ GraphService.get_edges client version edge_id ids node_id from_id to_id w
       = answer (doc_getitem db_data "edges")).
Proof.
  intros o answer Hres.
  pose proof (silent_graph_by_version_get client version w : log o = [])
    as Hlog.
  unfold GraphService.get_board, GraphService.get_nodes,
    GraphService.get_edges, answer.
  rewrite 3!(bind_run (graph_by_version_get client version)).
  fold o. rewrite Hres, Hlog. cbn [app].
  rewrite 3!(bind_run (GraphService.print_version db_data)).
  rewrite print_version_run.
  split.
  - intros ->. done.
  - intros [v ->]%dict_mem_lookup. cbn [ret lift res final log app].
    split; [done|].
    split; by destruct (doc_getitem db_data _).
Qed.
End ServiceExtras.

(** ** The further properties at concrete inputs *)

Lemma get_operation_raises_operation_error_witness :
  ∃ msg, OperationError (msg_unknown "op3") = OperationError msg.
Proof.
  apply (get_operation_raises_operation_error simple_format test_operations
           "op3" params_none ∅).
  vm_compute. reflexivity.
Defined.

Lemma get_operation_override_wins_witness :
  let params : gmap string pyval :=
    list_to_map [("param1", VStr "a"); ("param2", VInt 1)] in
  let kwargs : gmap string pyval := list_to_map [("param2", VInt 2)] in
  let op1 := op ["param1"; "param2"]
               "match $x has name {param1}; insert $x has age {param2};" in
  ∃ merged,
    (∀ key, merged !! key = match kwargs !! key with
                            | Some v => Some v
                            | None => params !! key
                            end)
    ∧ get_operation simple_format test_operations "op1" (ParamsDict params)
        kwargs
        = render simple_format "op1" op1 merged.
Proof.
  intros params kwargs op1.
  apply (get_operation_override_wins simple_format test_operations "op1" op1
           params kwargs).
  vm_compute. reflexivity.
Defined.

Lemma unknown_operation_witness :
  describe_operation test_operations "op3"
    = Raise (OperationError (msg_unknown "op3"))
  ∧ get_operation simple_format test_operations "op3" params_none ∅
    = Raise (OperationError (msg_unknown "op3")).
Proof.
  destruct (unknown_operation simple_format test_operations "op3") as [_ H].
  destruct (H ltac:(vm_compute; reflexivity)) as [Hd Hg].
  split; [exact Hd|exact (Hg params_none ∅)].
Defined.

Lemma describe_operation_params_witness :
  d_operation op1_description = "op1"
  ∧ ∃ required,
      required_params test_operations "op1" = Ok required
      ∧ sorted_listing required (d_params op1_description).
Proof.
  apply (describe_operation_params test_operations "op1" op1_description).
  vm_compute. reflexivity.
Defined.

Lemma load_holds_declared_witness :
  ∃ entries,
    load_json (test_fs test_spec)
        (path_join (test_fs test_spec)
           (path_join (test_fs test_spec) "db" "v0.1") "specification.json")
      = JsonValue (JList entries)
    ∧ Forall (λ entry, ∃ name op,
                entry_name entry = Some name
                ∧ test_loaded !! name = Some op
                ∧ loaded_from (test_fs test_spec)
                    (path_join (test_fs test_spec) "db" "v0.1") entry op)
        entries
    ∧ ∀ name, has_operation test_loaded name = true
              ↔ Some name ∈ entry_name <$> entries.
Proof.
  apply (load_holds_declared (test_fs test_spec) "db" "v0.1"
           "specification.json" test_loaded).
  vm_compute. reflexivity.
Defined.

Lemma duplicate_operation_rejected_witness :
  process_entries (test_fs []) "db/v0.1" ∅ ([op1_entry] ++ [op1_entry; op2_entry])
    = Raise (SpecificationError (msg_duplicate "op1")).
Proof.
  apply (proj2 (duplicate_operation_rejected (test_fs []) "db/v0.1"
                  [op1_entry] [op2_entry] op1_entry "op1" eq_refl
                  ltac:(apply list_elem_of_here))
           (list_to_map [("op1", op1_loaded)]) "op1.tql" ["param1"; "param2"]
           (spec_fields "op1" "op1.tql" "Test operation 1" ["param1"; "param2"]));
    vm_compute; reflexivity.
Defined.

Lemma missing_template_rejected_witness :
  let op3_entry := spec_entry "op3" "op3.tql" "Test operation 3" [] in
  process_entries (test_fs []) "db/v0.1" ∅ ([op1_entry] ++ [op3_entry; op2_entry])
    = Raise (TemplateFileError (msg_template_missing "db/v0.1/op3.tql" "op3")).
Proof.
  intros op3_entry.
  destruct (missing_template_rejected (test_fs []) "db/v0.1"
              [op1_entry] [op2_entry] op3_entry
              (list_to_map [("op1", op1_loaded)])) as [_ H].
  - vm_compute. reflexivity.
  - apply (H "op3" "op3.tql" []
             (spec_fields "op3" "op3.tql" "Test operation 3" []));
      vm_compute; reflexivity.
Defined.

Lemma loaded_operation_renders_witness :
  ∃ op,
    loaded_from (test_fs test_spec)
      (path_join (test_fs test_spec) "db" "v0.1") op1_entry op
    ∧ ∀ kwargs,
        dom kwargs = op_params op →
        get_operation simple_format test_loaded "op1" params_none kwargs
          = match simple_format (op_template op) kwargs with
            | Formatted query => Ok query
            | FormatKeyError key =>
                Raise (OperationError (msg_format_key "op1" key))
            | FormatFailure text =>
                Raise (OperationError (msg_format_failure "op1" text))
            end.
Proof.
  apply (loaded_operation_renders (test_fs test_spec) simple_format "db" "v0.1"
           "specification.json" test_loaded test_spec op1_entry "op1").
  - vm_compute. reflexivity.
  - vm_compute. reflexivity.
  - apply list_elem_of_here.
  - reflexivity.
Defined.

Lemma write_without_version_refused_witness :
  refused (node_delete (reading []) (VInt 1) None fresh) ActiveVersionError fresh.
Proof.
  apply (write_without_version_refused (reading []) (NodeDelete (VInt 1) None)
           fresh eq_refl eq_refl).
Defined.

Lemma write_without_template_refused_witness :
  refused (node_delete bare_client (VInt 1) (Some "v1") fresh)
    TemplateProcessingError fresh.
Proof.
  apply (write_without_template_refused bare_client
           (NodeDelete (VInt 1) (Some "v1")) fresh "v1" eq_refl).
  vm_compute. reflexivity.
Defined.

Lemma investigation_create_steps_witness :
  res (investigation_create (board_client (fixed_engine [] true false)) debugging)
    = Raise QueryExecutionError.
Proof.
  destruct (investigation_create_steps
              (board_client (fixed_engine [] true false)) debugging "1" eq_refl)
    as [_ H].
  destruct (H "define" eq_refl) as [H1 _].
  rewrite H1; [reflexivity|]. vm_compute. discriminate.
Defined.

Lemma database_methods_witness :
  create_database (reading []) (Some "test_db") debugging
    = {| res := Ok tt;
         final := record_event (DatabasesContains "test_db", Truth true) debugging;
         log := [] |}.
Proof.
  exact (proj1 (database_methods (reading []) (Some "test_db") debugging "1"
                  eq_refl)).
Defined.

Lemma ensure_database_exists_ungated_witness :
  ensure_database_exists (reading []) debugging
    = create_database (reading []) None debugging.
Proof.
  exact (proj2 (ensure_database_exists_ungated (reading []) debugging) "1"
           eq_refl).
Defined.

Lemma update_graph_setup_failure_witness :
  let self := reading [[("version", DVal (VStr "v1"))]] in
  update_graph self (Some "v1") [] [] fresh
    = {| res := Raise (KeyError "nodes");
         final := final (graph_by_version_get self (Some "v1") fresh);
         log := [] |}.
Proof.
  intros self.
  apply (update_graph_setup_failure self (Some "v1") [] [] fresh
           (KeyError "nodes")).
  right. exists [("version", DVal (VStr "v1"))].
  split; vm_compute; reflexivity.
Defined.

Lemma nan_position_always_updated_witness :
  let desired := NodeDTO 1 "a" S754_nan two VNone in
  log (update_changed_node (reading []) [("1", desired)] "v1"
         ("1", db_node 1 "a" float_one two) fresh)
    = [NodeUpdate (VStr "1") (VStr "a") (VFloat S754_nan) (VFloat two) VNone
         VNone (Some "v1")]
  ∧ node_fields_equal (reading []) (db_node 1 "a" float_one two) desired = false.
Proof.
  intros desired.
  apply (nan_position_always_updated (reading []) [("1", desired)] "v1" "1"
           (db_node 1 "a" float_one two) desired (VStr "a") VNone VNone
           S754_nan two float_one fresh);
    try (vm_compute; reflexivity).
  right. reflexivity.
Defined.

Lemma edge_change_calls_witness :
  log (update_changed_edge (reading []) [("7", EdgeDTO 7 1 3 "x")] "v1"
         ("7", db_edge 7 1 2 "x") fresh)
    = [EdgeDelete (VStr "7") (Some "v1");
       EdgeCreate (VStr "7") (VStr "1") (VStr "3") (VStr "x") (Some "v1")].
Proof.
  destruct (edge_change_calls (reading []) [("7", EdgeDTO 7 1 3 "x")] "v1" "7"
              (db_edge 7 1 2 "x") (EdgeDTO 7 1 3 "x") (VInt 1) (VInt 3)
              (VStr "x") fresh eq_refl eq_refl eq_refl eq_refl) as [H _].
  apply H; vm_compute; reflexivity.
Defined.

Lemma desired_duplicates_last_wins_witness :
  let first := NodeDTO 1 "a" float_one two VNone in
  let second := NodeDTO 1 "b" float_one two VNone in
  dict_lookup [("1", second)] "1"
    = last (List.filter (has_id (reading []) "node_id" "1") [first; second])
  ∧ NoDup [("1", second)].*1.
Proof.
  intros first second.
  apply (desired_duplicates_last_wins (reading []) "node_id" [first; second]
           [("1", second)] "1").
  vm_compute. reflexivity.
Defined.


Lemma readers_format_version_witness :
  let client := reading [[("nodes", DRows [])]] in
  res (GraphService.get_nodes client (Some "v1") VNone [] VNone VNone fresh)
    = Raise (KeyError "version").
Proof.
  intros client.
  destruct (readers_format_version client (Some "v1") fresh
              [("nodes", DRows [])] VNone VNone VNone VNone VNone VNone []
              ltac:(vm_compute; reflexivity)) as [H _].
  destruct (H eq_refl) as (_ & -> & _). reflexivity.
Defined.
